(** * The User workflow of the clean-architecture template

    A shallow embedding of
    - [src/adapters/repositories/in-memory-user.repository.ts]
      (InMemoryUserRepository),
    - [src/domain/entities/user.entity.ts] (createUserInputSchema),
    - [src/application/use-cases/create-user.use-case.ts] and
      [list-users.use-case.ts],
    - [src/adapters/api/base/base.controller.ts] (BaseController.execute),
    followed by the properties established about them.

    Conventions of the model.
    - A JavaScript string is a [string]: a sequence of code units, here
      restricted to the range 0..255 (Latin-1).
    - A JavaScript number that holds an integer is a [Z]; the precision loss
      of doubles above 2^53 is outside the model, as are NaN, infinities and
      fractions.
    - A [Date] is the [Z] of its millisecond time stamp; [new Date()] reads
      a clock value that the caller of the model passes as [now].
    - An [async] method is a function of the state it runs against; its
      promise settles as an [Outcome]: [Resolved] with the value returned
      or [Rejected] with the value thrown. A method without a throwing
      path returns its value directly.
    - The validation library and its e-mail pattern are not part of the
      repository: the schemas are modelled check by check, in the order the
      source chains them, over an arbitrary e-mail pattern. *)

From Stdlib Require Import Ascii String Decimal DecimalString DecimalZ.
From stdpp Require Import gmap strings list fin_maps sorting.

Local Open Scope string_scope.
Local Open Scope list_scope.
Local Open Scope Z_scope.

(** ** JavaScript string primitives *)

Module Js.

Definition code (c : ascii) : N := N_of_ascii c.

(** WhiteSpace and LineTerminator code points below 256: TAB, LF, VT, FF,
    CR, SP and NBSP. They are what [String.prototype.trim] strips and what
    [parseInt] skips. *)
Definition isWhiteSpace (c : ascii) : bool :=
  let n := code c in
  ((n =? 9) || (n =? 10) || (n =? 11) || (n =? 12) || (n =? 13)
   || (n =? 32) || (n =? 160))%N.

(** [toLowerCase] on one code unit: A-Z, and the Latin-1 capitals
    U+00C0..U+00DE without the multiplication sign U+00D7. *)
Definition lowerChar (c : ascii) : ascii :=
  let n := code c in
  if (((65 <=? n) && (n <=? 90))
      || ((192 <=? n) && (n <=? 222) && negb (n =? 215)))%N
  then ascii_of_N (n + 32)
  else c.

Fixpoint toLowerCase (s : string) : string :=
  match s with
  | EmptyString => EmptyString
  | String c r => String (lowerChar c) (toLowerCase r)
  end.

Fixpoint trimStart (s : string) : string :=
  match s with
  | EmptyString => EmptyString
  | String c r => if isWhiteSpace c then trimStart r else s
  end.

Fixpoint trimEnd (s : string) : string :=
  match s with
  | EmptyString => EmptyString
  | String c r =>
      match trimEnd r with
      | EmptyString => if isWhiteSpace c then EmptyString else String c EmptyString
      | r' => String c r'
      end
  end.

Definition trim (s : string) : string := trimEnd (trimStart s).

(** A decimal digit of [parseInt(_, 10)], as a constructor transformer of
    [Decimal.uint]. *)
Definition digit (c : ascii) : option (uint -> uint) :=
  match code c with
  | 48 => Some D0 | 49 => Some D1 | 50 => Some D2 | 51 => Some D3
  | 52 => Some D4 | 53 => Some D5 | 54 => Some D6 | 55 => Some D7
  | 56 => Some D8 | 57 => Some D9
  | _ => None
  end%N.

(** The longest prefix of decimal digits of [s]. *)
Fixpoint digitPrefix (s : string) : uint :=
  match s with
  | EmptyString => Nil
  | String c r =>
      match digit c with
      | Some d => d (digitPrefix r)
      | None => Nil
      end
  end.

(** [Number.parseInt(s, 10)]: skip leading white space, read an optional
    sign, then the longest run of decimal digits; [None] is NaN (no digit
    at all). No [0x] prefix is recognised with an explicit radix 10. *)
Definition parseInt (s : string) : option Z :=
  let t := trimStart s in
  let '(sign, body) :=
    match t with
    | String "-"%char r => (-1, r)
    | String "+"%char r => (1, r)
    | _ => (1, t)
    end in
  match digitPrefix body with
  | Nil => None
  | d => Some (sign * Z.of_uint d)
  end.

(** [String(n)] for an integer-valued number. *)
Definition numberToString (n : Z) : string :=
  NilZero.string_of_int (Z.to_int n).

(** [Array.prototype.slice(start, end)] with integer arguments: a negative
    index counts from the end of the array, and both are clamped to
    [0 .. length]. *)
Definition relativeIndex (len i : Z) : Z :=
  if i <? 0 then Z.max (len + i) 0 else Z.min i len.

Definition slice {A} (l : list A) (start stop : Z) : list A :=
  let len := Z.of_nat (length l) in
  let k := relativeIndex len start in
  let final := relativeIndex len stop in
  take (Z.to_nat (Z.max (final - k) 0)) (drop (Z.to_nat k) l).

End Js.

(** ** Domain entities ([user.entity.ts]) *)

Record User := mkUser {
  id : Z;
  email : string;
  name : string;
  createdAt : Z;
  updatedAt : Z
}.

(** [CreateUserInput]: [{ email: string; name: string }]. *)
Record CreateUserInput := mkCreateUserInput {
  in_email : string;
  in_name : string
}.

(** [UpdateUserInput]: [{ email?: string; name?: string }]; [None] is an
    absent property. *)
Record UpdateUserInput := mkUpdateUserInput {
  up_email : option string;
  up_name : option string
}.

(** ** The insertion-ordered [Map<number, User>]

    A JavaScript [Map] iterates in insertion order; [set] on a present key
    replaces the value in place, on a new key appends; [remove] is
    [Map.prototype.delete] and leaves no entry under the key. *)

Module JsMap.

Fixpoint get {V} (k : Z) (m : list (Z * V)) : option V :=
  match m with
  | [] => None
  | (k', v) :: r => if k =? k' then Some v else get k r
  end.

Fixpoint set {V} (k : Z) (v : V) (m : list (Z * V)) : list (Z * V) :=
  match m with
  | [] => [(k, v)]
  | (k', v') :: r => if k =? k' then (k, v) :: r else (k', v') :: set k v r
  end.

Fixpoint remove {V} (k : Z) (m : list (Z * V)) : list (Z * V) :=
  match m with
  | [] => []
  | (k', v') :: r => if k =? k' then remove k r else (k', v') :: remove k r
  end.

Definition keys {V} (m : list (Z * V)) : list Z := map fst m.

Definition values {V} (m : list (Z * V)) : list V := map snd m.

End JsMap.

(** ** InMemoryUserRepository ([in-memory-user.repository.ts]) *)

Module InMemoryUserRepository.

Record t := mk {
  users : list (Z * User);
  emailIndex : gmap string Z;
  nextId : Z
}.

(** [new InMemoryUserRepository()]. *)
Definition empty : t := {| users := []; emailIndex := ∅; nextId := 1 |}.

Definition findById (r : t) (idstr : string) : option User :=
  match Js.parseInt idstr with
  | None => None
  | Some numericId => JsMap.get numericId (users r)
  end.

(** [if (!id) return null] also rejects an index entry that holds 0. *)
Definition findByEmail (r : t) (e : string) : option User :=
  match emailIndex r !! Js.toLowerCase e with
  | None => None
  | Some k => if k =? 0 then None else JsMap.get k (users r)
  end.

Definition create (r : t) (input : CreateUserInput) (now : Z) : User * t :=
  let k := nextId r in
  let user :=
    {| id := k; email := Js.toLowerCase (in_email input);
       name := in_name input; createdAt := now; updatedAt := now |} in
  (user,
   {| users := JsMap.set k user (users r);
      emailIndex := <[email user := k]> (emailIndex r);
      nextId := k + 1 |}).

(** The object spread [{...user, ...input, email: .., updatedAt: ..}]. *)
Definition merge (user : User) (input : UpdateUserInput) (now : Z) : User :=
  {| id := id user;
     email := match up_email input with
              | Some e => Js.toLowerCase e
              | None => email user
              end;
     name := match up_name input with
             | Some n => n
             | None => name user
             end;
     createdAt := createdAt user;
     updatedAt := now |}.

(** The guard [input.email && input.email !== user.email]: the empty
    string is falsy. *)
Definition emailChanged (user : User) (input : UpdateUserInput) : bool :=
  match up_email input with
  | Some e =>
      negb (bool_decide (e = "")) && negb (bool_decide (e = email user))
  | None => false
  end.

Definition update (r : t) (idstr : string) (input : UpdateUserInput)
    (now : Z) : option User * t :=
  match Js.parseInt idstr with
  | None => (None, r)
  | Some numericId =>
      match JsMap.get numericId (users r) with
      | None => (None, r)
      | Some user =>
          let updatedUser := merge user input now in
          let index :=
            if emailChanged user input
            then <[email updatedUser := numericId]>
                   (base.delete (email user) (emailIndex r))
            else emailIndex r in
          (Some updatedUser,
           {| users := JsMap.set numericId updatedUser (users r);
              emailIndex := index;
              nextId := nextId r |})
      end
  end.

Definition delete (r : t) (idstr : string) : bool * t :=
  match Js.parseInt idstr with
  | None => (false, r)
  | Some numericId =>
      match JsMap.get numericId (users r) with
      | None => (false, r)
      | Some user =>
          (true,
           {| users := JsMap.remove numericId (users r);
              emailIndex := base.delete (email user) (emailIndex r);
              nextId := nextId r |})
      end
  end.

(** [list(limit = 10, offset = 0)]; [None] is an omitted (undefined)
    argument. *)
Definition list (r : t) (limit offset : option Z) : list User :=
  let limit := default 10 limit in
  let offset := default 0 offset in
  let allUsers := JsMap.values (users r) in
  Js.slice allUsers offset (offset + limit).

(** The calls a client can make that change the repository. *)
Inductive call :=
| Create (input : CreateUserInput) (now : Z)
| Update (idstr : string) (input : UpdateUserInput) (now : Z)
| Delete (idstr : string).

Definition step (r : t) (c : call) : t :=
  match c with
  | Create input now => snd (create r input now)
  | Update idstr input now => snd (update r idstr input now)
  | Delete idstr => snd (delete r idstr)
  end.

Definition run (cs : Datatypes.list call) : t := fold_left step cs empty.

(** The identifiers handed out by the [create] calls among [cs], in call
    order, starting from state [r]. *)
Fixpoint createdIds (r : t) (cs : Datatypes.list call) : Datatypes.list Z :=
  match cs with
  | [] => []
  | c :: cs' =>
      match c with
      | Create input now =>
          id (fst (create r input now)) :: createdIds (step r c) cs'
      | _ => createdIds (step r c) cs'
      end
  end.

(** Every state a client can produce from a fresh repository. *)
Inductive reachable : t -> Prop :=
| reachable_empty : reachable empty
| reachable_step r c : reachable r -> reachable (step r c).

End InMemoryUserRepository.

Module Repo := InMemoryUserRepository.

(** ** Values of type [unknown] and thrown values *)

#[warnings="-register-all"] Inductive JsValue :=
| JsUndefined
| JsNull
| JsBoolean (b : bool)
| JsNumber (n : Z)
| JsString (s : string)
| JsObject (props : list (string * JsValue)).

(** Property access [o[key]]; an absent property reads as [undefined]. *)
Fixpoint getProp (key : string) (props : list (string * JsValue)) : JsValue :=
  match props with
  | [] => JsUndefined
  | (k, v) :: r => if String.eqb k key then v else getProp key r
  end.

Inductive IssueCode := invalid_type | invalid_format | too_small | too_big | custom.

(** A validation issue; [issue_message = None] stands for the library's
    default text. *)
Record ZodIssue := mkIssue {
  issue_code : IssueCode;
  issue_path : list string;
  issue_message : option string
}.

(** What a [throw] can carry: the error classes of the repository
    ([base.error.ts], [validation.error.ts], [not-found.error.ts]), any
    other [Error] instance, or a value that is not an [Error]. *)
Inductive Thrown :=
| Error (message : string)
| ValidationError (message : string) (errors : list ZodIssue)
| NotFoundError (message : string)
| OtherError (name message : string)
| NotAnError (v : JsValue).

Definition instanceofError (e : Thrown) : bool :=
  match e with
  | NotAnError _ => false
  | _ => true
  end.

(** [error.name]: [DomainError] sets [this.name = this.constructor.name]. *)
Definition errorName (e : Thrown) : string :=
  match e with
  | Error _ => "Error"
  | ValidationError _ _ => "ValidationError"
  | NotFoundError _ => "NotFoundError"
  | OtherError n _ => n
  | NotAnError _ => ""
  end.

Definition errorMessage (e : Thrown) : string :=
  match e with
  | Error m | ValidationError m _ | NotFoundError m | OtherError _ m => m
  | NotAnError _ => ""
  end.

Definition isValidationError (e : Thrown) : bool :=
  match e with
  | ValidationError _ _ => true
  | _ => false
  end.

(** The settlement of a promise. *)
Inductive Outcome (T : Type) :=
| Resolved (value : T)
| Rejected (error : Thrown).

Arguments Resolved {T} value.
Arguments Rejected {T} error.

(** ** The string schemas of [user.entity.ts]

    A schema [z.string().a().b()] is the list of its checks in the order
    of the chain; the validation library runs them in that order on the
    current value, and [trim] replaces the current value. *)

(** The e-mail pattern of the validation library. *)
Class EmailFormat := isEmail : string -> bool.

Inductive StringCheck :=
| check_email (message : option string)
| check_min (value : Z) (message : option string)
| check_max (value : Z) (message : option string)
| check_trim.

Section Schema.
Context {fmt : EmailFormat}.

Definition runCheck (path : list string) (st : string * list ZodIssue)
    (c : StringCheck) : string * list ZodIssue :=
  let '(data, issues) := st in
  match c with
  | check_email msg =>
      if isEmail data then st
      else (data, issues ++ [mkIssue invalid_format path msg])
  | check_min v msg =>
      if Z.of_nat (String.length data) <? v
      then (data, issues ++ [mkIssue too_small path msg])
      else st
  | check_max v msg =>
      if Z.of_nat (String.length data) >? v
      then (data, issues ++ [mkIssue too_big path msg])
      else st
  | check_trim => (Js.trim data, issues)
  end.

Definition parseString (path : list string) (checks : list StringCheck)
    (v : JsValue) : string * list ZodIssue :=
  match v with
  | JsString s => fold_left (runCheck path) checks (s, [])
  | _ => ("", [mkIssue invalid_type path None])
  end.

(** [z.object({ email: .., name: .. })]. *)
Record ObjectSchema := mkObjectSchema {
  email_schema : list StringCheck;
  name_schema : list StringCheck
}.

Definition createUserInputSchema : ObjectSchema :=
  {| email_schema :=
       [check_email (Some "Invalid email format");
        check_min 1 (Some "Email is required");
        check_max 255 None];
     name_schema :=
       [check_min 1 (Some "Name is required");
        check_max 100 (Some "Name is too long");
        check_trim] |}.

(** [userSchema], "the source of truth for User validation", on the two
    string fields; [id] and the dates are a number and dates by the typing
    of [User]. *)
Definition userSchema : ObjectSchema :=
  {| email_schema := [check_email None];
     name_schema := [check_min 1 None; check_max 100 None] |}.

Definition satisfiesUserSchema (u : User) : bool :=
  match snd (parseString ["email"] (email_schema userSchema) (JsString (email u)))
        ++ snd (parseString ["name"] (name_schema userSchema) (JsString (name u)))
  with
  | [] => true
  | _ => false
  end.

Inductive SafeParseResult :=
| ParseSuccess (data : CreateUserInput)
| ParseFailure (issues : list ZodIssue).

Definition safeParse (schema : ObjectSchema) (input : JsValue)
    : SafeParseResult :=
  match input with
  | JsObject props =>
      let '(e, issues_e) :=
        parseString ["email"] (email_schema schema) (getProp "email" props) in
      let '(n, issues_n) :=
        parseString ["name"] (name_schema schema) (getProp "name" props) in
      match issues_e ++ issues_n with
      | [] => ParseSuccess {| in_email := e; in_name := n |}
      | issues => ParseFailure issues
      end
  | _ => ParseFailure [mkIssue invalid_type [] None]
  end.

End Schema.

(** ** The UserRepository port ([user.repository.port.ts])

    Every method runs against the private state [R] of the implementation
    and hands the state back. *)

Module UserRepository.

Class port (R : Type) := {
  findById : R -> string -> option User * R;
  findByEmail : R -> string -> option User * R;
  create : R -> CreateUserInput -> Z -> User * R;
  update : R -> string -> UpdateUserInput -> Z -> option User * R;
  delete : R -> string -> bool * R;
  list : R -> option Z -> option Z -> Datatypes.list User * R
}.

End UserRepository.

#[export] Instance inMemory : UserRepository.port Repo.t := {|
  UserRepository.findById r s := (Repo.findById r s, r);
  UserRepository.findByEmail r e := (Repo.findByEmail r e, r);
  UserRepository.create := Repo.create;
  UserRepository.update := Repo.update;
  UserRepository.delete := Repo.delete;
  UserRepository.list r limit offset := (Repo.list r limit offset, r)
|}.

(** A repository that records the name of every method called on it. *)
#[export] Instance traced {R} `{UserRepository.port R}
    : UserRepository.port (list string * R) := {|
  UserRepository.findById '(log, r) s :=
    let '(x, r') := UserRepository.findById r s in (x, (log ++ ["findById"], r'));
  UserRepository.findByEmail '(log, r) e :=
    let '(x, r') := UserRepository.findByEmail r e in
    (x, (log ++ ["findByEmail"], r'));
  UserRepository.create '(log, r) input now :=
    let '(x, r') := UserRepository.create r input now in
    (x, (log ++ ["create"], r'));
  UserRepository.update '(log, r) s input now :=
    let '(x, r') := UserRepository.update r s input now in
    (x, (log ++ ["update"], r'));
  UserRepository.delete '(log, r) s :=
    let '(x, r') := UserRepository.delete r s in (x, (log ++ ["delete"], r'));
  UserRepository.list '(log, r) limit offset :=
    let '(x, r') := UserRepository.list r limit offset in
    (x, (log ++ ["list"], r'))
|}.

(** The mock repository of [tests/create-user.use-case.test.ts]: it keeps
    no state, [findByEmail] answers [existing], and [create] echoes its
    input under the id 1. *)
Definition mockRepository (existing : option User) : UserRepository.port unit := {|
  UserRepository.findById _ _ := (None, tt);
  UserRepository.findByEmail _ _ := (existing, tt);
  UserRepository.create _ input now :=
    ({| id := 1; email := in_email input; name := in_name input;
        createdAt := now; updatedAt := now |}, tt);
  UserRepository.update _ _ _ _ := (None, tt);
  UserRepository.delete _ _ := (false, tt);
  UserRepository.list _ _ _ := ([], tt)
|}.

(** ** CreateUserUseCase ([create-user.use-case.ts]) *)

Module CreateUserUseCase.
Section UseCase.
Context {fmt : EmailFormat} {R : Type} {userRepository : UserRepository.port R}.

Definition execute (r : R) (input : JsValue) (now : Z) : Outcome User * R :=
  match safeParse createUserInputSchema input with
  | ParseFailure issues =>
      (Rejected (ValidationError "Invalid input" issues), r)
  | ParseSuccess validatedInput =>
      let '(existingUser, r1) :=
        UserRepository.findByEmail r (in_email validatedInput) in
      match existingUser with
      | Some _ => (Rejected (Error "User with this email already exists"), r1)
      | None =>
          let '(user, r2) :=
            UserRepository.create r1
              {| in_email := Js.toLowerCase (in_email validatedInput);
                 in_name := in_name validatedInput |} now in
          (Resolved user, r2)
      end
  end.

End UseCase.
End CreateUserUseCase.

(** ** ListUsersUseCase ([list-users.use-case.ts]) *)

Module ListUsersUseCase.

Record ListUsersInput := mkInput {
  limit : option Z;
  offset : option Z
}.

Record ListUsersResult := mkResult {
  users : list User;
  total : Z
}.

Section UseCase.
Context {R : Type} {userRepository : UserRepository.port R}.

Definition execute (r : R) (input : ListUsersInput)
    : Outcome ListUsersResult * R :=
  let limit := default 10 (limit input) in
  let offset := default 0 (offset input) in
  if (limit <? 1) || (limit >? 100) then
    (Rejected
       (ValidationError "Limit must be between 1 and 100"
          [mkIssue custom ["limit"] (Some "Limit must be between 1 and 100")]),
     r)
  else
    let '(users, r1) := UserRepository.list r (Some limit) (Some offset) in
    (Resolved {| users := users; total := Z.of_nat (length users) |}, r1).

End UseCase.
End ListUsersUseCase.

(** ** BaseController ([base.controller.ts]) *)

Module BaseController.

Inductive ControllerResponse (T : Type) :=
| Success (data : T)
| Failure (error message : string).

Arguments Success {T} data.
Arguments Failure {T} error message.

(** A call of [logger.error(message, error, context)]. *)
Record ErrorLog := mkErrorLog {
  log_message : string;
  log_error : option Thrown;
  log_context : list (string * string)
}.

(** [fn] runs against a world [W] (repository, trace and debug output);
    the calls of [logger.error] are collected separately. *)
Definition execute {W T} (fn : W -> Outcome T * W) (w : W)
    (logged : list ErrorLog) : ControllerResponse T * W * list ErrorLog :=
  match fn w with
  | (Resolved data, w1) => (Success data, w1, logged)
  | (Rejected error, w1) =>
      let errorMessage :=
        if instanceofError error then errorMessage error
        else "An unknown error occurred" in
      let errorName :=
        if instanceofError error then errorName error
        else "UNKNOWN_ERROR" in
      (Failure errorName errorMessage, w1,
       logged ++
         [mkErrorLog errorMessage
            (if instanceofError error then Some error else None)
            [("errorName", errorName)]])
  end.

End BaseController.

(** ** The e-mail pattern

    The validation library accepts, without regard to case, a string
    that does not begin with a dot, has no two dots in a row, and reads
    local-part, at-sign, domain: the local part is a non-empty run of
    letters, digits and the characters underscore, apostrophe, plus,
    minus and dot that does not end in an apostrophe or a dot; the domain
    is one or more labels (a letter or digit, then letters, digits and
    minus signs), each followed by a dot, and a final run of two or more
    letters. It is not part of the repository; the use case is modelled
    over any [EmailFormat], and [Zod.emailRegex] is the
    instance used to run it. *)

Module Zod.

Definition isLetter (c : ascii) : bool :=
  let n := Js.code c in
  (((65 <=? n) && (n <=? 90)) || ((97 <=? n) && (n <=? 122)))%N.

Definition isDigit (c : ascii) : bool :=
  let n := Js.code c in ((48 <=? n) && (n <=? 57))%N.

Definition isAlnum (c : ascii) : bool := isLetter c || isDigit c.

Definition oneOf (cs : string) (c : ascii) : bool :=
  bool_decide (c ∈ list_ascii_of_string cs).

Definition isLocalChar (c : ascii) : bool := isAlnum c || oneOf "_'+-." c.
Definition isLocalLast (c : ascii) : bool := isAlnum c || oneOf "_+-" c.
Definition isLabelChar (c : ascii) : bool := isAlnum c || oneOf "-" c.

Fixpoint all (p : ascii -> bool) (s : string) : bool :=
  match s with
  | EmptyString => true
  | String c r => p c && all p r
  end.

Fixpoint split (sep : ascii) (s : string) : list string :=
  match s with
  | EmptyString => [EmptyString]
  | String c r =>
      if bool_decide (c = sep) then EmptyString :: split sep r
      else match split sep r with
           | h :: t => String c h :: t
           | [] => [String c EmptyString]
           end
  end.

Fixpoint lastChar (s : string) : option ascii :=
  match s with
  | EmptyString => None
  | String c EmptyString => Some c
  | String _ r => lastChar r
  end.

Fixpoint hasDotDot (s : string) : bool :=
  match s with
  | String "."%char (String "."%char _) => true
  | String _ r => hasDotDot r
  | EmptyString => false
  end.

Definition startsWithDot (s : string) : bool :=
  match s with
  | String "."%char _ => true
  | _ => false
  end.

Definition validLabel (l : string) : bool :=
  match l with
  | String c r => isAlnum c && all isLabelChar r
  | EmptyString => false
  end.

Definition validTld (l : string) : bool :=
  (2 <=? String.length l)%nat && all isLetter l.

Definition emailRegex : EmailFormat := fun s =>
  match split "@"%char s with
  | [localPart; domain] =>
      negb (startsWithDot s) && negb (hasDotDot s)
      && all isLocalChar localPart
      && match lastChar localPart with
         | Some c => isLocalLast c
         | None => false
         end
      && match reverse (split "."%char domain) with
         | tld :: (_ :: _) as labels => validTld tld && forallb validLabel labels
         | _ => false
         end
  | _ => false
  end.

End Zod.

(** ** Predicates used in the statements *)

(** No two entries of the users map carry the same e-mail. *)
Definition uniqueEmails (r : Repo.t) : Prop :=
  NoDup (map email (JsMap.values (Repo.users r))).

(** The e-mail occurs in the repository: some stored user carries it, or
    the e-mail index has an entry for it. *)
Definition emailStored (r : Repo.t) (e : string) : Prop :=
  (exists k u, (k, u) ∈ Repo.users r /\ email u = Js.toLowerCase e)
  \/ is_Some (Repo.emailIndex r !! Js.toLowerCase e).

(** The id string names no stored user. *)
Definition idUnknown (r : Repo.t) (idstr : string) : Prop :=
  match Js.parseInt idstr with
  | None => True
  | Some k => JsMap.get k (Repo.users r) = None
  end.


(** [s.length]. *)
Definition len (s : string) : Z := Z.of_nat (String.length s).

(** The input [{ email: e, name: n }]. *)
Definition request (e n : string) : JsValue :=
  JsObject [("email", JsString e); ("name", JsString n)].

(** The user and the repositories the test suite builds. *)
Definition testUser : User := mkUser 1 "test@example.com" "Test User" 0 0.

Definition oneUser : Repo.t :=
  Repo.run [Repo.Create (mkCreateUserInput "test@example.com" "Test User") 0].

Definition threeUsers : Repo.t :=
  Repo.run
    [Repo.Create (mkCreateUserInput "user1@example.com" "User 1") 0;
     Repo.Create (mkCreateUserInput "user2@example.com" "User 2") 1;
     Repo.Create (mkCreateUserInput "user3@example.com" "User 3") 2].

(** [CreateUserUseCase.execute] on the mock repository. *)
Definition executeOnMock (existing : option User) (input : JsValue)
    : Outcome User :=
  fst (CreateUserUseCase.execute (fmt := Zod.emailRegex)
         (userRepository := mockRepository existing) tt input 0).

(** The calls through which the application layer changes the in-memory
    repository: user creation goes through [CreateUserUseCase.execute];
    besides, users may be deleted and renamed. *)
Inductive appCall :=
| AppCreate (input : JsValue) (now : Z)
| AppRename (idstr : string) (newName : option string) (now : Z)
| AppDelete (idstr : string).

Section Guarded.
Context {fmt : EmailFormat}.

Definition appStep (r : Repo.t) (c : appCall) : Repo.t :=
  match c with
  | AppCreate input now => snd (CreateUserUseCase.execute r input now)
  | AppRename idstr newName now =>
      snd (Repo.update r idstr {| up_email := None; up_name := newName |} now)
  | AppDelete idstr => snd (Repo.delete r idstr)
  end.

Inductive guarded : Repo.t -> Prop :=
| guarded_empty : guarded Repo.empty
| guarded_step r c : guarded r -> guarded (appStep r c).

End Guarded.

(** Representation invariants of the in-memory repository. [wellFormed]
    holds in every reachable state; [indexed] adds the agreement of the
    e-mail index with the users map and holds in every guarded state. *)
Record wellFormed (r : Repo.t) : Prop := {
  wf_next : 1 <= Repo.nextId r;
  wf_keys : NoDup (JsMap.keys (Repo.users r));
  wf_ids : forall k u, (k, u) ∈ Repo.users r -> id u = k /\ 1 <= k < Repo.nextId r
}.

Record indexed (r : Repo.t) : Prop := {
  ix_wf : wellFormed r;
  ix_complete : forall k u,
    (k, u) ∈ Repo.users r -> Repo.emailIndex r !! email u = Some k;
  ix_sound : forall e k,
    Repo.emailIndex r !! e = Some k ->
    exists u, (k, u) ∈ Repo.users r /\ email u = e
}.

(** ** NotFoundError ([not-found.error.ts]) and GetUserUseCase
    ([get-user.use-case.ts]) *)

(** The optional [identifier?: string | number] of the constructor. *)
Inductive Identifier :=
| IdAbsent
| IdString (s : string)
| IdNumber (n : Z).

(** Truthiness: the empty string and 0 are falsy, like [undefined]. *)
Definition truthy (i : Identifier) : bool :=
  match i with
  | IdAbsent => false
  | IdString s => negb (bool_decide (s = ""))
  | IdNumber n => negb (n =? 0)
  end.

(** The identifier inside a template literal. *)
Definition identifierText (i : Identifier) : string :=
  match i with
  | IdAbsent => "undefined"
  | IdString s => s
  | IdNumber n => Js.numberToString n
  end.

(** [new NotFoundError(resource, identifier)]. *)
Definition newNotFoundError (resource : string) (identifier : Identifier)
    : Thrown :=
  NotFoundError
    (if truthy identifier
     then resource +:+ " with identifier '" +:+ identifierText identifier
          +:+ "' not found"
     else resource +:+ " not found").

Module GetUserUseCase.
Section UseCase.
Context {R : Type} {userRepository : UserRepository.port R}.

Definition execute (r : R) (id : string) : Outcome User * R :=
  let '(user, r1) := UserRepository.findById r id in
  match user with
  | None => (Rejected (newNotFoundError "User" (IdString id)), r1)
  | Some user => (Resolved user, r1)
  end.

End UseCase.
End GetUserUseCase.

(** ** updateUserInputSchema ([user.entity.ts])

    Both fields are [.optional()]: [undefined] (an absent property) is
    accepted as it is, anything else goes through the string schema. *)

Inductive SafeParseUpdateResult :=
| UpdateSuccess (data : UpdateUserInput)
| UpdateFailure (issues : list ZodIssue).

Section UpdateSchema.
Context {fmt : EmailFormat}.

Definition updateUserInputSchema : ObjectSchema :=
  {| email_schema :=
       [check_email (Some "Invalid email format"); check_max 255 None];
     name_schema :=
       [check_min 1 (Some "Name cannot be empty");
        check_max 100 (Some "Name is too long");
        check_trim] |}.

Definition parseOptional (path : list string) (checks : list StringCheck)
    (v : JsValue) : option string * list ZodIssue :=
  match v with
  | JsUndefined => (None, [])
  | _ => let '(s, issues) := parseString path checks v in (Some s, issues)
  end.

Definition safeParseUpdate (schema : ObjectSchema) (input : JsValue)
    : SafeParseUpdateResult :=
  match input with
  | JsObject props =>
      let '(e, issues_e) :=
        parseOptional ["email"] (email_schema schema) (getProp "email" props) in
      let '(n, issues_n) :=
        parseOptional ["name"] (name_schema schema) (getProp "name" props) in
      match issues_e ++ issues_n with
      | [] => UpdateSuccess {| up_email := e; up_name := n |}
      | issues => UpdateFailure issues
      end
  | _ => UpdateFailure [mkIssue invalid_type [] None]
  end.

End UpdateSchema.

(** ** The LoggerService port ([logger.service.port.ts]) as a record of
    the calls made on it *)

Module Logger.

Inductive level := trace | debug | info | warn | error | fatal.

(** A call of [logger.trace] or [logger.debug] with its context object. *)
Record call := mkCall {
  call_level : level;
  call_message : string;
  call_context : list (string * JsValue)
}.

End Logger.

(** ** UserController ([user.controller.ts])

    [Date.prototype.toISOString] is a parameter of the model. The
    controller runs against the repository state and the list of the
    trace and debug calls made so far; [BaseController.execute] collects
    the [logger.error] calls. *)

Class DateFormat := toISOString : Z -> string.

Module UserController.

Record CreateUserRequest := mkRequest {
  req_email : string;
  req_name : string
}.

Record UserResponse := mkResponse {
  resp_id : string;
  resp_email : string;
  resp_name : string;
  resp_createdAt : string;
  resp_updatedAt : string
}.

Record ListResponse := mkListResponse {
  resp_users : list UserResponse;
  resp_total : Z
}.

Definition optionalNumber (n : option Z) : JsValue :=
  match n with
  | Some n => JsNumber n
  | None => JsUndefined
  end.

Section Controller.
Context {fmt : EmailFormat} {dates : DateFormat}.
Context {R : Type} {userRepository : UserRepository.port R}.

Definition toUserResponse (user : User) : UserResponse :=
  {| resp_id := Js.numberToString (id user);
     resp_email := email user;
     resp_name := name user;
     resp_createdAt := toISOString (createdAt user);
     resp_updatedAt := toISOString (updatedAt user) |}.

Definition createUser (input : CreateUserRequest) (now : Z)
    (w : R * list Logger.call) (logged : list BaseController.ErrorLog)
    : BaseController.ControllerResponse UserResponse
      * (R * list Logger.call) * list BaseController.ErrorLog :=
  let '(r, out) := w in
  let out :=
    out ++ [Logger.mkCall Logger.debug "UserController > createUser: begin"
              [("email", JsString (req_email input));
               ("name", JsString (req_name input))]] in
  BaseController.execute
    (fun '(r, out) =>
       match CreateUserUseCase.execute r
               (request (req_email input) (req_name input)) now with
       | (Resolved user, r1) =>
           let response := toUserResponse user in
           (Resolved response,
            (r1, out ++
               [Logger.mkCall Logger.trace "UserController > createUser: end"
                  [("userId", JsString (resp_id response));
                   ("email", JsString (resp_email response))]]))
       | (Rejected e, r1) => (Rejected e, (r1, out))
       end)
    (r, out) logged.

Definition getUserById (id : string)
    (w : R * list Logger.call) (logged : list BaseController.ErrorLog)
    : BaseController.ControllerResponse UserResponse
      * (R * list Logger.call) * list BaseController.ErrorLog :=
  let '(r, out) := w in
  let out :=
    out ++ [Logger.mkCall Logger.debug "UserController > getUserById: begin"
              [("id", JsString id)]] in
  BaseController.execute
    (fun '(r, out) =>
       match GetUserUseCase.execute r id with
       | (Resolved user, r1) =>
           let response := toUserResponse user in
           (Resolved response,
            (r1, out ++
               [Logger.mkCall Logger.trace "UserController > getUserById: end"
                  [("id", JsString id); ("found", JsBoolean true)]]))
       | (Rejected e, r1) => (Rejected e, (r1, out))
       end)
    (r, out) logged.

Definition listUsers (limit offset : option Z)
    (w : R * list Logger.call) (logged : list BaseController.ErrorLog)
    : BaseController.ControllerResponse ListResponse
      * (R * list Logger.call) * list BaseController.ErrorLog :=
  let '(r, out) := w in
  let out :=
    out ++ [Logger.mkCall Logger.debug "UserController > listUsers: begin"
              [("limit", optionalNumber limit);
               ("offset", optionalNumber offset)]] in
  BaseController.execute
    (fun '(r, out) =>
       match ListUsersUseCase.execute r
               (ListUsersUseCase.mkInput limit offset) with
       | (Resolved result, r1) =>
           let response :=
             {| resp_users := map toUserResponse (ListUsersUseCase.users result);
                resp_total := ListUsersUseCase.total result |} in
           (Resolved response,
            (r1, out ++
               [Logger.mkCall Logger.trace "UserController > listUsers: end"
                  [("count", JsNumber (Z.of_nat (length (resp_users response))));
                   ("total", JsNumber (resp_total response))]]))
       | (Rejected e, r1) => (Rejected e, (r1, out))
       end)
    (r, out) logged.

End Controller.
End UserController.

(** ** Server actions ([app/actions/users.ts])

    The container's controller runs against the container's repository
    and logger; the calls of [revalidatePath] are recorded. *)

Module Actions.

Record App (R : Type) := mkApp {
  app_world : R * list Logger.call;
  app_logged : list BaseController.ErrorLog;
  app_revalidated : list string
}.

Arguments mkApp {R} _ _ _.
Arguments app_world {R} _.
Arguments app_logged {R} _.
Arguments app_revalidated {R} _.

Section Actions.
Context {fmt : EmailFormat} {dates : DateFormat}.
Context {R : Type} {userRepository : UserRepository.port R}.

Definition createUserAction (input : UserController.CreateUserRequest)
    (now : Z) (a : App R) : Outcome UserController.UserResponse * App R :=
  let '(result, w, logged) :=
    UserController.createUser input now (app_world a) (app_logged a) in
  match result with
  | BaseController.Failure _ message =>
      (Rejected (Error message), mkApp w logged (app_revalidated a))
  | BaseController.Success data =>
      (Resolved data, mkApp w logged (app_revalidated a ++ ["/users"]))
  end.

Definition getUserAction (id : string) (a : App R)
    : Outcome UserController.UserResponse * App R :=
  let '(result, w, logged) :=
    UserController.getUserById id (app_world a) (app_logged a) in
  match result with
  | BaseController.Failure _ message =>
      (Rejected (Error message), mkApp w logged (app_revalidated a))
  | BaseController.Success data =>
      (Resolved data, mkApp w logged (app_revalidated a))
  end.

(** [options?.limit] and [options?.offset]: an absent [options] gives two
    absent arguments. *)
Definition listUsersAction (options : option ListUsersUseCase.ListUsersInput)
    (a : App R) : Outcome UserController.ListResponse * App R :=
  let '(result, w, logged) :=
    UserController.listUsers
      (options ≫= ListUsersUseCase.limit) (options ≫= ListUsersUseCase.offset)
      (app_world a) (app_logged a) in
  match result with
  | BaseController.Failure _ message =>
      (Rejected (Error message), mkApp w logged (app_revalidated a))
  | BaseController.Success data =>
      (Resolved data, mkApp w logged (app_revalidated a))
  end.

(** [getCurrentUserAction], given how [authService.getCurrentUser()]
    settles; the [try]/[catch] turns a rejection into [null]. *)
Definition getCurrentUserAction (current : Outcome (option User))
    : option UserController.UserResponse :=
  match current with
  | Resolved (Some user) =>
      Some {| UserController.resp_id := Js.numberToString (id user);
              UserController.resp_email := email user;
              UserController.resp_name := name user;
              UserController.resp_createdAt := toISOString (createdAt user);
              UserController.resp_updatedAt := toISOString (updatedAt user) |}
  | Resolved None => None
  | Rejected _ => None
  end.

End Actions.
End Actions.

(** ** ConsoleLoggerService ([console-logger.service.ts]) and the log
    level of the environment ([env.ts]) *)

Module ConsoleLoggerService.

(** What one [console.log] call prints. *)
Inductive output :=
| Line (text : string)
| Context (context : list (string * JsValue))
| ErrorDetails (e : Thrown).

Definition esc : string := String "027"%char EmptyString.

Definition color (l : Logger.level) : string :=
  match l with
  | Logger.info => esc +:+ "[36m"
  | Logger.warn => esc +:+ "[33m"
  | Logger.error => esc +:+ "[31m"
  | Logger.fatal => esc +:+ "[38;5;208m"
  | Logger.debug => esc +:+ "[94m"
  | Logger.trace => esc +:+ "[90m"
  end.

Definition reset : string := esc +:+ "[0m".

(** [level.toUpperCase()] on the six names of [LogLevel]. *)
Definition upperName (l : Logger.level) : string :=
  match l with
  | Logger.trace => "TRACE"
  | Logger.debug => "DEBUG"
  | Logger.info => "INFO"
  | Logger.warn => "WARN"
  | Logger.error => "ERROR"
  | Logger.fatal => "FATAL"
  end.

Definition levelToNumber (l : Logger.level) : Z :=
  match l with
  | Logger.trace => 0
  | Logger.debug => 1
  | Logger.info => 2
  | Logger.warn => 3
  | Logger.error | Logger.fatal => 4
  end.

Section Service.
Context {dates : DateFormat}.
Variable logLevel : Z.

Definition log (l : Logger.level) (message : string) (e : option Thrown)
    (context : option (list (string * JsValue))) (now : Z) : list output :=
  let timestamp := toISOString now in
  let prefix :=
    color l +:+ "[" +:+ timestamp +:+ "] " +:+ upperName l +:+ "-"
    +:+ Js.numberToString (levelToNumber l) +:+ reset in
  let line := prefix +:+ " " +:+ message in
  [Line line]
  ++ match context with
     | Some (p :: ps) => [Context (p :: ps)]
     | _ => []
     end
  ++ match e with
     | Some e => [ErrorDetails e]
     | None => []
     end.

Definition trace message context now : list output :=
  if logLevel >? 0 then [] else log Logger.trace message None context now.

Definition debug message context now : list output :=
  if logLevel >? 1 then [] else log Logger.debug message None context now.

Definition info message context now : list output :=
  if logLevel >? 2 then [] else log Logger.info message None context now.

Definition warn message context now : list output :=
  if logLevel >? 3 then [] else log Logger.warn message None context now.

Definition error message e context now : list output :=
  if logLevel >? 4 then [] else log Logger.error message e context now.

Definition fatal message e context now : list output :=
  if logLevel >? 4 then [] else log Logger.fatal message e context now.

End Service.

(** [APP_LOG_LEVEL] of [envSchema]: [undefined] becomes the default
    ["2"], the string must be one character from 0 to 4, and is then
    handed to [parseInt]. The outer [None] is a failed validation. *)
Definition isLevelDigit (s : string) : bool :=
  match s with
  | String c EmptyString => ((48 <=? Js.code c) && (Js.code c <=? 52))%N
  | _ => false
  end.

Definition appLogLevel (raw : option string) : option (option Z) :=
  let s := default "2" raw in
  if isLevelDigit s then Some (Js.parseInt s) else None.

End ConsoleLoggerService.

(** The logging of one controller call that started from the output [out]
    and the error log [logged]: a debug entry first; then a trace entry and
    no error entry on success, or one error entry that carries the
    response's message, and no trace entry, on failure. *)
Definition loggedAsOneCall {T R} (out : list Logger.call)
    (logged : list BaseController.ErrorLog)
    (result : BaseController.ControllerResponse T * (R * list Logger.call)
              * list BaseController.ErrorLog) : Prop :=
  match result with
  | (BaseController.Success _, (_, out'), logged') =>
      (exists b t, out' = out ++ [b; t]
                   /\ Logger.call_level b = Logger.debug
                   /\ Logger.call_level t = Logger.trace)
      /\ logged' = logged
  | (BaseController.Failure _ message, (_, out'), logged') =>
      (exists b, out' = out ++ [b] /\ Logger.call_level b = Logger.debug)
      /\ exists entry, logged' = logged ++ [entry]
                       /\ BaseController.log_message entry = message
  end.

(** ** A date format to run the controller with

    [Date.prototype.toISOString] for a millisecond time stamp, from the
    proleptic Gregorian calendar: [YYYY-MM-DDTHH:mm:ss.sssZ], with a sign
    and six digits for a year outside 0..9999. It is an instance of
    [DateFormat] used to run the controller; the statements hold for any
    instance. *)

Module Iso.

Fixpoint zeros (k : nat) : string :=
  match k with
  | O => EmptyString
  | S k => String "0"%char (zeros k)
  end.

Definition pad (width : nat) (n : Z) : string :=
  let s := Js.numberToString n in
  zeros (width - String.length s) +:+ s.

(** Year, month and day of the day number [days] counted from
    1970-01-01. *)
Definition civil (days : Z) : Z * Z * Z :=
  let z := days + 719468 in
  let era := z / 146097 in
  let doe := z - era * 146097 in
  let yoe := (doe - doe / 1460 + doe / 36524 - doe / 146096) / 365 in
  let doy := doe - (365 * yoe + yoe / 4 - yoe / 100) in
  let mp := (5 * doy + 2) / 153 in
  let d := doy - (153 * mp + 2) / 5 + 1 in
  let m := if mp <? 10 then mp + 3 else mp - 9 in
  let y := yoe + era * 400 + (if m <=? 2 then 1 else 0) in
  (y, m, d).

Definition toISOString : DateFormat := fun t =>
  let '(y, m, d) := civil (t / 86400000) in
  let ms := t mod 86400000 in
  let year :=
    if (0 <=? y) && (y <=? 9999) then pad 4 y
    else if y <? 0 then "-" +:+ pad 6 (- y)
    else "+" +:+ pad 6 y in
  year +:+ "-" +:+ pad 2 m +:+ "-" +:+ pad 2 d
  +:+ "T" +:+ pad 2 (ms / 3600000)
  +:+ ":" +:+ pad 2 (ms / 60000 mod 60)
  +:+ ":" +:+ pad 2 (ms / 1000 mod 60)
  +:+ "." +:+ pad 3 (ms mod 1000) +:+ "Z".

End Iso.

(** * Properties *)

(** ** Strings and numbers *)

Section JsFacts.

Lemma lowerChar_idem c : Js.lowerChar (Js.lowerChar c) = Js.lowerChar c.
Proof. destruct c as [[] [] [] [] [] [] [] []]; reflexivity. Qed.

Lemma toLowerCase_idem s : Js.toLowerCase (Js.toLowerCase s) = Js.toLowerCase s.
Proof.
  induction s as [|c s IH]; simpl; [done|].
  by rewrite lowerChar_idem, IH.
Qed.

Lemma trimStart_length s : (String.length (Js.trimStart s) <= String.length s)%nat.
Proof.
  induction s as [|c s IH]; simpl; [lia|].
  destruct (Js.isWhiteSpace c); simpl; lia.
Qed.

Lemma trimEnd_length s : (String.length (Js.trimEnd s) <= String.length s)%nat.
Proof.
  induction s as [|c s IH]; simpl; [lia|].
  destruct (Js.trimEnd s); [destruct (Js.isWhiteSpace c)|]; simpl in *; lia.
Qed.

Lemma trim_length s : (String.length (Js.trim s) <= String.length s)%nat.
Proof.
  unfold Js.trim. etrans; [apply trimEnd_length | apply trimStart_length].
Qed.

Lemma digitPrefix_string_of_uint d :
  Js.digitPrefix (NilEmpty.string_of_uint d) = d.
Proof. induction d; simpl; by rewrite ?IHd. Qed.

Lemma parseInt_digits d :
  d <> Nil -> Js.parseInt (NilEmpty.string_of_uint d) = Some (Z.of_uint d).
Proof.
  intros Hd. unfold Js.parseInt.
  destruct d as [|d|d|d|d|d|d|d|d|d|d]; [done|..]; simpl;
    rewrite digitPrefix_string_of_uint;
    (match goal with |- Some (1 * ?z) = _ => by rewrite Z.mul_1_l end).
Qed.

(** [parseInt(String(n), 10)] is [n] for every positive integer. *)
Lemma parseInt_numberToString n :
  0 < n -> Js.parseInt (Js.numberToString n) = Some n.
Proof.
  intros Hn. destruct n as [|p|p]; try lia.
  unfold Js.numberToString. simpl.
  pose proof (DecimalPos.Unsigned.to_uint_nonnil p) as Hnil.
  unfold NilZero.string_of_uint.
  destruct (Pos.to_uint p) eqn:E; [done|..];
    rewrite <- E, parseInt_digits by (rewrite E; done);
    f_equal; exact (DecimalZ.of_to (Z.pos p)).
Qed.

End JsFacts.

(** ** The ordered map *)

Section JsMapFacts.
Context {V : Type}.
Implicit Types (m : list (Z * V)) (k : Z) (v : V).

Lemma get_set_eq k v m : JsMap.get k (JsMap.set k v m) = Some v.
Proof.
  induction m as [|[k' v'] m IH]; simpl.
  - by rewrite Z.eqb_refl.
  - destruct (k =? k') eqn:E; simpl; [by rewrite Z.eqb_refl | by rewrite E].
Qed.


Lemma get_elem_of k v m : JsMap.get k m = Some v -> (k, v) ∈ m.
Proof.
  induction m as [|[k' v'] m IH]; simpl; [done|].
  destruct (Z.eqb_spec k k') as [->|]; intros H.
  - injection H as ->. left.
  - right. auto.
Qed.

Lemma elem_of_get k v m :
  NoDup (JsMap.keys m) -> (k, v) ∈ m -> JsMap.get k m = Some v.
Proof.
  induction m as [|[k' v'] m IH]; simpl; intros Hnd Hin.
  - by apply elem_of_nil in Hin.
  - apply NoDup_cons in Hnd as [Hk' Hnd].
    apply elem_of_cons in Hin as [Heq|Hin].
    + injection Heq as -> ->. by rewrite Z.eqb_refl.
    + destruct (Z.eqb_spec k k') as [->|]; [|auto].
      destruct Hk'. apply list_elem_of_fmap. by exists (k', v).
Qed.

Lemma elem_of_keys k v m : (k, v) ∈ m -> k ∈ JsMap.keys m.
Proof. intros Hin. apply list_elem_of_fmap. by exists (k, v). Qed.

Lemma elem_of_set k v k' v' m :
  NoDup (JsMap.keys m) ->
  (k', v') ∈ JsMap.set k v m ->
  (k' = k /\ v' = v) \/ (k' <> k /\ (k', v') ∈ m).
Proof.
  induction m as [|[k0 v0] m IH]; simpl; intros Hnd Hin.
  - apply list_elem_of_singleton in Hin. injection Hin as -> ->. by left.
  - apply NoDup_cons in Hnd as [Hk0 Hnd].
    destruct (Z.eqb_spec k k0) as [->|Hne].
    + apply elem_of_cons in Hin as [Heq|Hin].
      * injection Heq as -> ->. by left.
      * right. split; [|by right].
        intros ->. apply Hk0. by eapply elem_of_keys.
    + apply elem_of_cons in Hin as [Heq|Hin].
      * injection Heq as -> ->. right. split; [done|]. left.
      * destruct (IH Hnd Hin) as [?|[? ?]]; [by left|].
        right. split; [done|]. by right.
Qed.

Lemma elem_of_set_ne k v k' v' m :
  k' <> k -> (k', v') ∈ m -> (k', v') ∈ JsMap.set k v m.
Proof.
  intros Hne. induction m as [|[k0 v0] m IH]; simpl; intros Hin.
  - by apply elem_of_nil in Hin.
  - apply elem_of_cons in Hin as [Heq|Hin].
    + injection Heq as -> ->.
      destruct (Z.eqb_spec k k0); [congruence|]. left.
    + destruct (Z.eqb_spec k k0); right; auto.
Qed.

Lemma keys_set k v k' m :
  k' ∈ JsMap.keys (JsMap.set k v m) -> k' = k \/ k' ∈ JsMap.keys m.
Proof.
  induction m as [|[k0 v0] m IH]; simpl.
  - intros Hin. apply list_elem_of_singleton in Hin. by left.
  - destruct (Z.eqb_spec k k0) as [->|Hne]; simpl; intros Hin;
      apply elem_of_cons in Hin as [->|Hin].
    + by left.
    + right. by right.
    + right. left.
    + destruct (IH Hin); [by left|]. right. by right.
Qed.

Lemma NoDup_keys_set k v m :
  NoDup (JsMap.keys m) -> NoDup (JsMap.keys (JsMap.set k v m)).
Proof.
  induction m as [|[k0 v0] m IH]; simpl; intros Hnd.
  - apply NoDup_singleton.
  - apply NoDup_cons in Hnd as [Hk0 Hnd].
    destruct (Z.eqb_spec k k0) as [->|Hne]; simpl.
    + by apply NoDup_cons.
    + apply NoDup_cons. split; [|auto].
      intros Hin. apply keys_set in Hin as [?|?]; [congruence|done].
Qed.

Lemma elem_of_remove k k' v' m :
  (k', v') ∈ JsMap.remove k m -> k' <> k /\ (k', v') ∈ m.
Proof.
  induction m as [|[k0 v0] m IH]; simpl; intros Hin.
  - by apply elem_of_nil in Hin.
  - destruct (Z.eqb_spec k k0) as [->|Hne].
    + destruct (IH Hin). split; [done|]. by right.
    + apply elem_of_cons in Hin as [Heq|Hin].
      * injection Heq as -> ->. split; [done|]. left.
      * destruct (IH Hin). split; [done|]. by right.
Qed.

Lemma elem_of_remove_ne k k' v' m :
  k' <> k -> (k', v') ∈ m -> (k', v') ∈ JsMap.remove k m.
Proof.
  intros Hne. induction m as [|[k0 v0] m IH]; simpl; intros Hin.
  - by apply elem_of_nil in Hin.
  - apply elem_of_cons in Hin as [Heq|Hin].
    + injection Heq as -> ->.
      destruct (Z.eqb_spec k k0); [congruence|]. left.
    + destruct (Z.eqb_spec k k0); [auto|]. right. auto.
Qed.

Lemma keys_remove k k' m :
  k' ∈ JsMap.keys (JsMap.remove k m) -> k' ∈ JsMap.keys m.
Proof.
  intros Hin. apply list_elem_of_fmap in Hin as [[k0 v0] [-> Hin]].
  apply elem_of_remove in Hin as [_ Hin]. by eapply elem_of_keys.
Qed.

Lemma NoDup_keys_remove k m :
  NoDup (JsMap.keys m) -> NoDup (JsMap.keys (JsMap.remove k m)).
Proof.
  induction m as [|[k0 v0] m IH]; simpl; intros Hnd; [done|].
  apply NoDup_cons in Hnd as [Hk0 Hnd].
  destruct (Z.eqb_spec k k0) as [->|Hne]; simpl; [auto|].
  apply NoDup_cons. split; [|auto].
  intros Hin. by apply keys_remove in Hin.
Qed.

Lemma get_remove_eq k m : JsMap.get k (JsMap.remove k m) = None.
Proof.
  induction m as [|[k0 v0] m IH]; simpl; [done|].
  destruct (Z.eqb_spec k k0) as [->|Hne]; simpl; [done|].
  by destruct (Z.eqb_spec k k0).
Qed.

Lemma get_remove_ne k k' m :
  k <> k' -> JsMap.get k' (JsMap.remove k m) = JsMap.get k' m.
Proof.
  intros Hne. induction m as [|[k0 v0] m IH]; simpl; [done|].
  destruct (Z.eqb_spec k k0) as [->|]; simpl.
  - by destruct (Z.eqb_spec k' k0); [congruence|].
  - by rewrite IH.
Qed.

End JsMapFacts.

(** ** Invariants of the in-memory repository *)

Section RepoInvariants.
Implicit Types (r : Repo.t) (c : Repo.call).

Lemma wellFormed_empty : wellFormed Repo.empty.
Proof.
  split; simpl.
  - done.
  - apply NoDup_nil_2.
  - intros k u Hin. by apply elem_of_nil in Hin.
Qed.

Lemma wellFormed_create r input now :
  wellFormed r -> wellFormed (snd (Repo.create r input now)).
Proof.
  intros [Hnext Hnd Hids]. split; simpl.
  - lia.
  - by apply NoDup_keys_set.
  - intros k u Hin. apply elem_of_set in Hin as [[-> ->]|[_ Hin]]; [| |done].
    + simpl. lia.
    + destruct (Hids _ _ Hin). split; [done|lia].
Qed.

Lemma wellFormed_update r idstr input now :
  wellFormed r -> wellFormed (snd (Repo.update r idstr input now)).
Proof.
  intros Hwf. unfold Repo.update.
  destruct (Js.parseInt idstr) as [k|]; [|done].
  destruct (JsMap.get k (Repo.users r)) as [user|] eqn:Hget; [|done].
  destruct Hwf as [Hnext Hnd Hids]. split; simpl.
  - done.
  - by apply NoDup_keys_set.
  - intros k' u Hin. apply elem_of_set in Hin as [[-> ->]|[_ Hin]]; [|auto|done].
    simpl. by apply Hids, get_elem_of.
Qed.

Lemma wellFormed_delete r idstr :
  wellFormed r -> wellFormed (snd (Repo.delete r idstr)).
Proof.
  intros Hwf. unfold Repo.delete.
  destruct (Js.parseInt idstr) as [k|]; [|done].
  destruct (JsMap.get k (Repo.users r)) as [user|] eqn:Hget; [|done].
  destruct Hwf as [Hnext Hnd Hids]. split; simpl.
  - done.
  - by apply NoDup_keys_remove.
  - intros k' u Hin. apply elem_of_remove in Hin as [_ Hin]. auto.
Qed.

Lemma wellFormed_step r c : wellFormed r -> wellFormed (Repo.step r c).
Proof.
  destruct c; simpl; intros Hwf.
  - by apply wellFormed_create.
  - by apply wellFormed_update.
  - by apply wellFormed_delete.
Qed.

Lemma reachable_wellFormed r : Repo.reachable r -> wellFormed r.
Proof.
  induction 1; [apply wellFormed_empty | by apply wellFormed_step].
Qed.

Lemma run_reachable cs : Repo.reachable (Repo.run cs).
Proof.
  unfold Repo.run. induction cs as [|c cs IH] using rev_ind; simpl.
  - constructor.
  - rewrite fold_left_app. simpl. by constructor.
Qed.

Lemma nextId_step r c : Repo.nextId r <= Repo.nextId (Repo.step r c).
Proof.
  destruct c as [input now|idstr input now|idstr]; simpl; [lia|..].
  - unfold Repo.update. destruct (Js.parseInt idstr) as [k|]; [|done].
    by destruct (JsMap.get k (Repo.users r)).
  - unfold Repo.delete. destruct (Js.parseInt idstr) as [k|]; [|done].
    by destruct (JsMap.get k (Repo.users r)).
Qed.

(** Every id handed out from state [r] on is at least [nextId r], and
    later ones are larger than earlier ones. *)
Lemma createdIds_sorted cs : forall r,
  Forall (fun k => Repo.nextId r <= k) (Repo.createdIds r cs)
  /\ StronglySorted Z.lt (Repo.createdIds r cs).
Proof.
  induction cs as [|c cs IH]; intros r; simpl.
  - split; constructor.
  - destruct (IH (Repo.step r c)) as [Hge Hsorted].
    pose proof (nextId_step r c) as Hmono.
    destruct c as [input now|idstr input now|idstr].
    + simpl in *. split.
      * constructor; [lia|]. eapply Forall_impl; [exact Hge|].
        simpl. intros; lia.
      * constructor; [done|]. eapply Forall_impl; [exact Hge|].
        simpl. intros; lia.
    + split; [|done]. eapply Forall_impl; [exact Hge|].
      intros k Hk. cbv beta in Hk |- *. lia.
    + split; [|done]. eapply Forall_impl; [exact Hge|].
      intros k Hk. cbv beta in Hk |- *. lia.
Qed.

Lemma wellFormed_ids r :
  wellFormed r ->
  NoDup (map id (JsMap.values (Repo.users r)))
  /\ Forall (fun u => 1 <= id u) (JsMap.values (Repo.users r)).
Proof.
  intros [Hnext Hnd Hids]. split.
  - assert (map id (JsMap.values (Repo.users r)) = JsMap.keys (Repo.users r))
      as ->; [|done].
    unfold JsMap.values, JsMap.keys. rewrite map_map.
    apply map_ext_in. intros [k u] Hin. simpl.
    apply list_elem_of_In in Hin. by apply Hids.
  - apply Forall_forall. intros u Hin.
    apply list_elem_of_fmap in Hin as [[k u'] [-> Hin]]. simpl.
    destruct (Hids _ _ Hin) as [-> ?]. lia.
Qed.

End RepoInvariants.

(** ** The e-mail index in guarded states *)

Section IndexInvariant.
Context {fmt : EmailFormat}.
Implicit Types (r : Repo.t).

Lemma indexed_empty : indexed Repo.empty.
Proof.
  split; [apply wellFormed_empty| |].
  - intros k u Hin. by apply elem_of_nil in Hin.
  - intros e k Hidx. simpl in Hidx. by rewrite lookup_empty in Hidx.
Qed.

(** Two entries of a well-formed users map under one key are one. *)
Lemma stored_functional r k u u' :
  wellFormed r -> (k, u) ∈ Repo.users r -> (k, u') ∈ Repo.users r -> u = u'.
Proof.
  intros [_ Hnd _] H1 H2.
  apply (elem_of_get _ _ _ Hnd) in H1, H2. congruence.
Qed.

(** In an indexed state the lookup finds every stored user. *)
Lemma findByEmail_hit r e k u :
  indexed r -> (k, u) ∈ Repo.users r -> email u = Js.toLowerCase e ->
  Repo.findByEmail r e = Some u.
Proof.
  intros [[Hnext Hnd Hids] Hcomplete _] Hin Hemail. unfold Repo.findByEmail.
  rewrite <- Hemail, (Hcomplete _ _ Hin).
  destruct (Hids _ _ Hin) as [_ Hk].
  destruct (Z.eqb_spec k 0); [lia|]. by apply elem_of_get.
Qed.

(** In an indexed state an e-mail occurs in the repository exactly when a
    stored user carries it. *)
Lemma indexed_emailStored r e :
  indexed r ->
  emailStored r e
  <-> exists k u, (k, u) ∈ Repo.users r /\ email u = Js.toLowerCase e.
Proof.
  intros Hix. split; [|by left].
  intros [Huser|[k Hk]]; [done|].
  destruct (ix_sound r Hix _ _ Hk) as (u & Hin & He). by exists k, u.
Qed.

Lemma indexed_create r e n now :
  indexed r -> Repo.findByEmail r e = None ->
  indexed (snd (Repo.create r
                  {| in_email := Js.toLowerCase e; in_name := n |} now)).
Proof.
  intros Hix Hfresh. split; [apply wellFormed_create, Hix| |].
  - intros k u Hin. simpl in Hin |- *. rewrite toLowerCase_idem in Hin |- *.
    apply elem_of_set in Hin as [[-> ->]|[Hk Hin]]; [| |apply Hix].
    + simpl. apply lookup_insert_eq.
    + destruct (decide (email u = Js.toLowerCase e)) as [Heq|Hne].
      * by rewrite (findByEmail_hit r e k u) in Hfresh.
      * rewrite lookup_insert_ne by done. by apply Hix.
  - intros e' k. simpl. rewrite toLowerCase_idem.
    destruct (decide (Js.toLowerCase e = e')) as [<-|Hne].
    + rewrite lookup_insert_eq. intros [= <-].
      eexists. split; [apply get_elem_of, get_set_eq|done].
    + rewrite lookup_insert_ne by done. intros Hidx.
      destruct (ix_sound r Hix _ _ Hidx) as (u & Hin & He).
      exists u. split; [|done]. apply elem_of_set_ne; [|done].
      destruct (wf_ids r (ix_wf r Hix) _ _ Hin). lia.
Qed.

Lemma indexed_execute r input now :
  indexed r -> indexed (snd (CreateUserUseCase.execute r input now)).
Proof.
  intros Hix. unfold CreateUserUseCase.execute.
  destruct (safeParse createUserInputSchema input) as [v|issues]; [|done].
  simpl. destruct (Repo.findByEmail r (in_email v)) eqn:Hfind; [done|].
  by apply indexed_create.
Qed.

Lemma indexed_rename r idstr newName now :
  indexed r ->
  indexed (snd (Repo.update r idstr
                  {| up_email := None; up_name := newName |} now)).
Proof.
  intros Hix.
  pose proof (wellFormed_update r idstr
                {| up_email := None; up_name := newName |} now (ix_wf r Hix))
    as Hwf.
  revert Hwf. unfold Repo.update.
  destruct (Js.parseInt idstr) as [k|]; [|done].
  destruct (JsMap.get k (Repo.users r)) as [user|] eqn:Hget; [|done].
  simpl. intros Hwf. apply get_elem_of in Hget. split; [done| |]; simpl.
  - intros k' u Hin.
    apply elem_of_set in Hin as [[-> ->]|[Hk Hin]]; [| |apply Hix].
    + simpl. by apply Hix.
    + by apply Hix.
  - intros e k' Hidx. destruct (ix_sound r Hix _ _ Hidx) as (u & Hin & He).
    destruct (decide (k' = k)) as [->|Hne].
    + rewrite (stored_functional r k u user (ix_wf r Hix) Hin Hget) in He.
      eexists. split; [apply get_elem_of, get_set_eq|done].
    + exists u. split; [|done]. by apply elem_of_set_ne.
Qed.

Lemma indexed_delete r idstr :
  indexed r -> indexed (snd (Repo.delete r idstr)).
Proof.
  intros Hix. pose proof (wellFormed_delete r idstr (ix_wf r Hix)) as Hwf.
  revert Hwf. unfold Repo.delete.
  destruct (Js.parseInt idstr) as [k|]; [|done].
  destruct (JsMap.get k (Repo.users r)) as [user|] eqn:Hget; [|done].
  simpl. intros Hwf. apply get_elem_of in Hget. split; [done| |]; simpl.
  - intros k' u Hin. apply elem_of_remove in Hin as [Hk Hin].
    pose proof (ix_complete r Hix _ _ Hin) as Hu.
    pose proof (ix_complete r Hix _ _ Hget) as Huser.
    destruct (decide (email user = email u)) as [Heq|Hne].
    + rewrite Heq in Huser. congruence.
    + by rewrite lookup_delete_ne.
  - intros e k' Hidx.
    destruct (decide (email user = e)) as [<-|Hne].
    + by rewrite lookup_delete_eq in Hidx.
    + rewrite lookup_delete_ne in Hidx by done.
      destruct (ix_sound r Hix _ _ Hidx) as (u & Hin & He).
      exists u. split; [|done]. apply elem_of_remove_ne; [|done].
      intros ->. apply Hne.
      by rewrite <- (stored_functional r k u user (ix_wf r Hix) Hin Hget).
Qed.

Lemma guarded_indexed r : guarded r -> indexed r.
Proof.
  induction 1 as [|r c _ IH]; [apply indexed_empty|].
  destruct c; simpl.
  - by apply indexed_execute.
  - by apply indexed_rename.
  - by apply indexed_delete.
Qed.

(** A guarded state is one a client can reach with raw repository calls. *)
Lemma guarded_reachable r : guarded r -> Repo.reachable r.
Proof.
  induction 1 as [|r c _ IH]; [constructor|].
  destruct c as [input now|idstr newName now|idstr]; simpl.
  - unfold CreateUserUseCase.execute.
    destruct (safeParse createUserInputSchema input) as [v|issues]; [|done].
    simpl. destruct (Repo.findByEmail r (in_email v)); [done|].
    exact (Repo.reachable_step r
             (Repo.Create {| in_email := Js.toLowerCase (in_email v);
                             in_name := in_name v |} now) IH).
  - exact (Repo.reachable_step r (Repo.Update idstr _ now) IH).
  - exact (Repo.reachable_step r (Repo.Delete idstr) IH).
Qed.

Lemma indexed_uniqueEmails r : indexed r -> uniqueEmails r.
Proof.
  intros [[Hnext Hnd Hids] Hcomplete _]. unfold uniqueEmails, JsMap.values.
  rewrite map_map. apply (NoDup_fmap_2_strong (fun p => email (snd p))).
  - intros [k1 u1] [k2 u2] H1 H2 Heq. simpl in Heq.
    pose proof (Hcomplete _ _ H1) as E1. pose proof (Hcomplete _ _ H2) as E2.
    rewrite Heq in E1. assert (k1 = k2) as -> by congruence.
    apply (elem_of_get _ _ _ Hnd) in H1, H2. congruence.
  - eapply NoDup_fmap_1. exact Hnd.
Qed.

End IndexInvariant.

(** ** Identifiers *)

(** C10. The identifiers handed out by [create] are strictly increasing
    over any interleaving of create, update and delete calls, so none is
    handed out twice, also after the user that carried it is deleted; each
    is at least 1. In every state such calls produce from a fresh
    repository, the stored users carry pairwise distinct identifiers, all
    at least 1, and the next [create] hands out an identifier that none of
    them carries. *)
Theorem identifiers_increase_and_are_never_reused :
  (forall cs,
     StronglySorted Z.lt (Repo.createdIds Repo.empty cs)
     /\ Forall (fun k => 1 <= k) (Repo.createdIds Repo.empty cs))
  /\ (forall cs,
        NoDup (map id (JsMap.values (Repo.users (Repo.run cs))))
        /\ Forall (fun u => 1 <= id u) (JsMap.values (Repo.users (Repo.run cs))))
  /\ (forall cs input now,
        Forall (fun u => id u < id (fst (Repo.create (Repo.run cs) input now)))
          (JsMap.values (Repo.users (Repo.run cs)))).
Proof.
  split; [|split]; intros cs.
  - destruct (createdIds_sorted cs Repo.empty) as [Hge Hsorted]. by split.
  - apply wellFormed_ids, reachable_wellFormed, run_reachable.
  - intros input now. simpl.
    destruct (reachable_wellFormed _ (run_reachable cs)) as [_ _ Hids].
    apply Forall_forall. intros u Hin.
    apply list_elem_of_fmap in Hin as [[k u'] [-> Hin]]. simpl.
    destruct (Hids _ _ Hin) as [-> ?]. lia.
Qed.

Example identifiers_after_delete :
  Repo.createdIds Repo.empty
    [Repo.Create (mkCreateUserInput "a@x.io" "A") 0;
     Repo.Delete "1";
     Repo.Create (mkCreateUserInput "b@x.io" "B") 1;
     Repo.Update "2" (mkUpdateUserInput None (Some "C")) 2;
     Repo.Create (mkCreateUserInput "c@x.io" "C") 3] = [1; 2; 3].
Proof. reflexivity. Qed.

(** ** Missing entities *)

Lemma findByEmail_absent r e : ~ emailStored r e -> Repo.findByEmail r e = None.
Proof.
  intros Hfree. unfold Repo.findByEmail.
  destruct (Repo.emailIndex r !! Js.toLowerCase e) as [k|] eqn:Hidx; [|done].
  destruct Hfree. right. by exists k.
Qed.


(** Read by the stored users alone: in a state whose index agrees with the
    users map, an e-mail that no stored user carries is not found. *)
Lemma findByEmail_unknown r e :
  indexed r ->
  (forall k u, (k, u) ∈ Repo.users r -> email u <> Js.toLowerCase e) ->
  Repo.findByEmail r e = None.
Proof.
  intros Hix Hnone. apply findByEmail_absent.
  rewrite (indexed_emailStored r e Hix). intros (k & u & Hin & He).
  by apply (Hnone k u).
Qed.


(** ** Update *)


(** ** The controller boundary *)

(** C8. Whatever the wrapped computation does, [BaseController.execute]
    returns a tagged response: [Success data] when the computation resolves
    with [data], and [Failure name message] with the name and the message
    of the thrown error when it rejects with an [Error]; a thrown value
    that is no [Error] is reported as [UNKNOWN_ERROR]. The function has no
    rejecting path of its own, and a failure is logged once. *)
Theorem controller_returns_tagged_response {W T} (fn : W -> Outcome T * W)
    w logged :
  (forall data w1, fn w = (Resolved data, w1) ->
     BaseController.execute fn w logged
     = (BaseController.Success data, w1, logged))
  /\ (forall error w1, fn w = (Rejected error, w1) ->
        instanceofError error = true ->
        exists entry,
          BaseController.execute fn w logged
          = (BaseController.Failure (errorName error) (errorMessage error),
             w1, logged ++ [entry]))
  /\ (forall v w1, fn w = (Rejected (NotAnError v), w1) ->
        exists entry,
          BaseController.execute fn w logged
          = (BaseController.Failure "UNKNOWN_ERROR" "An unknown error occurred",
             w1, logged ++ [entry])).
Proof.
  unfold BaseController.execute. repeat split.
  - by intros data w1 ->.
  - intros error w1 -> ->. by eexists.
  - intros v w1 ->. by eexists.
Qed.

(** ** Listing through the use case *)

(** C9. With [limit] read from the input and 10 when it is absent,
    [ListUsersUseCase.execute] rejects with a [ValidationError] when
    [limit < 1] or [limit > 100], and calls no method of the repository
    (whatever the implementation, its state comes back untouched, and the
    recording repository has recorded nothing); for [1 <= limit <= 100] it
    calls [list] once and resolves with the page the repository returned
    and with [total] the length of that page. *)
Theorem list_users_checks_limit_first {R} {repo : UserRepository.port R}
    (r : R) (log : list string) input :
  let limit := default 10 (ListUsersUseCase.limit input) in
  let offset := default 0 (ListUsersUseCase.offset input) in
  (limit < 1 \/ 100 < limit ->
     (exists message issues,
        ListUsersUseCase.execute r input
        = (Rejected (ValidationError message issues), r))
     /\ snd (ListUsersUseCase.execute (log, r) input) = (log, r))
  /\ (1 <= limit <= 100 ->
        let page := UserRepository.list r (Some limit) (Some offset) in
        ListUsersUseCase.execute r input
        = (Resolved {| ListUsersUseCase.users := fst page;
                       ListUsersUseCase.total := Z.of_nat (length (fst page)) |},
           snd page)
        /\ fst (snd (ListUsersUseCase.execute (log, r) input)) = log ++ ["list"]).
Proof.
  intros limit offset. unfold ListUsersUseCase.execute. fold limit offset.
  split.
  - intros Hbad.
    assert (((limit <? 1) || (limit >? 100)) = true) as ->.
    { apply orb_true_iff. rewrite Z.ltb_lt, Z.gtb_gt. lia. }
    split; [by eexists _, _|done].
  - intros Hok.
    assert (((limit <? 1) || (limit >? 100)) = false) as ->.
    { apply orb_false_iff. rewrite Z.ltb_ge, Z.gtb_ltb, Z.ltb_ge. lia. }
    split.
    + by destruct (UserRepository.list r (Some limit) (Some offset)).
    + simpl. by destruct (UserRepository.list r (Some limit) (Some offset)).
Qed.

(** [total] is the size of the page, not of the repository. *)
Example total_counts_the_page :
  let r := threeUsers in
  length (Repo.users r) = 3%nat
  /\ exists page,
       fst (ListUsersUseCase.execute r (ListUsersUseCase.mkInput (Some 2) None))
       = Resolved (ListUsersUseCase.mkResult page 2).
Proof. split; [reflexivity|]. by eexists. Qed.

(** ** The schema of the create-user input *)

Section SchemaFacts.
Context {fmt : EmailFormat}.

(** The schema accepts [{ email: e, name: n }] exactly when [e] matches
    the e-mail pattern and has 1 to 255 code units and [n], as given, has 1
    to 100 code units; the parsed name is [n] trimmed. *)
Lemma safeParse_accepts e n :
  isEmail e = true -> 1 <= len e <= 255 -> 1 <= len n <= 100 ->
  safeParse createUserInputSchema (request e n)
  = ParseSuccess {| in_email := e; in_name := Js.trim n |}.
Proof.
  unfold len. intros He Hle Hln.
  assert ((Z.of_nat (String.length e) <? 1) = false) as E1 by lia.
  assert ((Z.of_nat (String.length e) >? 255) = false) as E2 by lia.
  assert ((Z.of_nat (String.length n) <? 1) = false) as E3 by lia.
  assert ((Z.of_nat (String.length n) >? 100) = false) as E4 by lia.
  cbn. rewrite He. cbn. rewrite E1. cbn. rewrite E2. cbn.
  rewrite E3. cbn. by rewrite E4.
Qed.

Lemma safeParse_rejects e n :
  isEmail e = false \/ ~ 1 <= len e <= 255 \/ ~ 1 <= len n <= 100 ->
  exists issues,
    safeParse createUserInputSchema (request e n) = ParseFailure issues.
Proof.
  unfold len. intros Hbad. cbn.
  destruct (isEmail e); cbn;
  destruct (Z.ltb_spec (Z.of_nat (String.length e)) 1); cbn;
  destruct (Z.gtb_spec (Z.of_nat (String.length e)) 255); cbn;
  destruct (Z.ltb_spec (Z.of_nat (String.length n)) 1); cbn;
  destruct (Z.gtb_spec (Z.of_nat (String.length n)) 100); cbn;
  try (by eexists); exfalso; destruct Hbad as [?|[?|?]]; try done; lia.
Qed.

(** The length checks run before [trim]: a name of 1 to 100 white-space
    characters is accepted, and parsed to the empty name. *)
Corollary safeParse_blank_name e n :
  isEmail e = true -> 1 <= len e <= 255 -> 1 <= len n <= 100 ->
  Js.trim n = "" ->
  safeParse createUserInputSchema (request e n)
  = ParseSuccess {| in_email := e; in_name := "" |}.
Proof. intros He Hle Hln <-. by apply safeParse_accepts. Qed.

End SchemaFacts.

(** ** Creating users *)

Section CreateUser.
Context {fmt : EmailFormat}.
Implicit Types (r : Repo.t).

(** What [execute] does on an input the schema accepts, in a state where
    the lookup finds nobody. *)
Lemma execute_creates r input v now :
  safeParse createUserInputSchema input = ParseSuccess v ->
  Repo.findByEmail r (in_email v) = None ->
  CreateUserUseCase.execute r input now
  = (let '(u, r') :=
       Repo.create r {| in_email := Js.toLowerCase (in_email v);
                        in_name := in_name v |} now in
     (Resolved u, r')).
Proof.
  intros Hparse Hfind. unfold CreateUserUseCase.execute.
  rewrite Hparse. simpl. by rewrite Hfind.
Qed.

(** A rejection with [ValidationError] is the failure of the schema. *)
Lemma execute_validation_error r input now :
  (exists message issues,
     fst (CreateUserUseCase.execute r input now)
     = Rejected (ValidationError message issues))
  <-> (exists issues,
         safeParse createUserInputSchema input = ParseFailure issues).
Proof.
  unfold CreateUserUseCase.execute.
  destruct (safeParse createUserInputSchema input) as [v|issues]; simpl.
  - split.
    + intros (message & issues & H).
      by destruct (Repo.findByEmail r (in_email v)).
    + by intros [issues H].
  - split; intros _; by eauto.
Qed.

(** C1, as amended. Uniqueness of e-mails is the work of
    [CreateUserUseCase.execute], which looks the e-mail up before it
    creates: in every state built from a fresh repository by [execute],
    [delete] and updates that leave the e-mail alone, no two stored users
    have the same e-mail, and a further [execute] keeps it so. *)
Theorem use_case_keeps_emails_unique r :
  guarded r ->
  uniqueEmails r
  /\ forall input now,
       uniqueEmails (snd (CreateUserUseCase.execute r input now)).
Proof.
  intros Hg. apply guarded_indexed in Hg. split.
  - by apply indexed_uniqueEmails.
  - intros input now. by apply indexed_uniqueEmails, indexed_execute.
Qed.

(** C3, as amended. In a state whose e-mail index agrees with the users
    map (every guarded state is one), if a stored user carries the
    lowercased e-mail of an input the schema accepts, [execute] rejects
    with the plain [Error] (no [ValidationError]) and leaves the repository
    as it was. *)
Theorem duplicate_email_is_rejected r input v now k u :
  indexed r ->
  safeParse createUserInputSchema input = ParseSuccess v ->
  (k, u) ∈ Repo.users r ->
  email u = Js.toLowerCase (in_email v) ->
  CreateUserUseCase.execute r input now
  = (Rejected (Error "User with this email already exists"), r).
Proof.
  intros Hix Hparse Hin Hemail. unfold CreateUserUseCase.execute.
  rewrite Hparse. simpl.
  by rewrite (findByEmail_hit r _ k u Hix Hin Hemail).
Qed.


End CreateUser.

(** ** Listing *)

Section Slices.
Context {A : Type}.
Implicit Types (l : list A).




End Slices.


(** ** Concrete runs *)

(** C1 as stated fails: [create] stores whatever it is given. Two
    [create] calls with one e-mail leave two users with that e-mail. *)
Lemma repository_create_admits_duplicate_email :
  let r := Repo.run [Repo.Create (mkCreateUserInput "a@x.io" "A") 0;
                     Repo.Create (mkCreateUserInput "a@x.io" "B") 1] in
  Repo.reachable r /\ ~ uniqueEmails r.
Proof.
  split; [apply run_reachable|].
  unfold uniqueEmails. vm_compute. intros H.
  apply NoDup_cons in H as [H _]. apply H. left.
Qed.

Lemma use_case_keeps_emails_unique_witness :
  let r := appStep (fmt := Zod.emailRegex)
             (appStep (fmt := Zod.emailRegex) Repo.empty
                (AppCreate (request "a@x.io" "A") 0))
             (AppCreate (request "A@X.IO" "B") 1) in
  guarded (fmt := Zod.emailRegex) r
  /\ uniqueEmails r
  /\ forall input now,
       uniqueEmails
         (snd (CreateUserUseCase.execute (fmt := Zod.emailRegex) r input now)).
Proof.
  intros r.
  assert (guarded (fmt := Zod.emailRegex) r) as Hg
    by (apply guarded_step, guarded_step, guarded_empty).
  split; [exact Hg|].
  exact (use_case_keeps_emails_unique (fmt := Zod.emailRegex) r Hg).
Defined.

(** C2 at the failing input: the name of three spaces passes [min(1)] and
    [max(100)] untrimmed, is trimmed afterwards, and a user with the empty
    name is created; no [ValidationError] is thrown. The user returned does
    not satisfy [userSchema], whose name has [min(1)]. *)
Theorem whitespace_only_name_is_accepted :
  let created := mkUser 1 "a@b.co" "" 0 0 in
  len (Js.trim "   ") = 0
  /\ Zod.emailRegex "a@b.co" = true
  /\ fst (CreateUserUseCase.execute (fmt := Zod.emailRegex) Repo.empty
            (request "a@b.co" "   ") 0)
     = Resolved created
  /\ satisfiesUserSchema (fmt := Zod.emailRegex) created = false.
Proof. repeat split; vm_compute; reflexivity. Qed.

(** C3 as stated fails: after two raw [create] calls with one e-mail and
    the deletion of the second user, the first user still carries the
    e-mail, the index has lost it, and [execute] creates a third user. *)
Lemma stale_index_hides_stored_user :
  let r := Repo.run [Repo.Create (mkCreateUserInput "a@x.io" "A") 0;
                     Repo.Create (mkCreateUserInput "a@x.io" "B") 1;
                     Repo.Delete "2"] in
  Repo.reachable r
  /\ Repo.users r = [(1, mkUser 1 "a@x.io" "A" 0 0)]
  /\ safeParse (fmt := Zod.emailRegex) createUserInputSchema
       (request "a@x.io" "C")
     = ParseSuccess (mkCreateUserInput "a@x.io" "C")
  /\ fst (CreateUserUseCase.execute (fmt := Zod.emailRegex) r
            (request "a@x.io" "C") 2)
     = Resolved (mkUser 3 "a@x.io" "C" 2 2).
Proof.
  split; [apply run_reachable|]. repeat split; vm_compute; reflexivity.
Qed.

Lemma duplicate_email_is_rejected_witness :
  let r := appStep (fmt := Zod.emailRegex) Repo.empty
             (AppCreate (request "a@x.io" "A") 0) in
  (indexed r /\ (1, mkUser 1 "a@x.io" "A" 0 0) ∈ Repo.users r)
  /\ CreateUserUseCase.execute (fmt := Zod.emailRegex) r
       (request "A@X.IO" "B") 1
     = (Rejected (Error "User with this email already exists"), r).
Proof.
  intros r.
  assert (indexed r) as Hix
    by (apply (guarded_indexed (fmt := Zod.emailRegex)),
          guarded_step, guarded_empty).
  assert ((1, mkUser 1 "a@x.io" "A" 0 0) ∈ Repo.users r) as Hin
    by (vm_compute; left).
  split; [done|].
  apply (duplicate_email_is_rejected (fmt := Zod.emailRegex) r
           (request "A@X.IO" "B") (mkCreateUserInput "A@X.IO" "B") 1
           1 (mkUser 1 "a@x.io" "A" 0 0) Hix); [|exact Hin|reflexivity].
  vm_compute. reflexivity.
Defined.







Lemma controller_returns_tagged_response_witness :
  let fn := fun w : Repo.t =>
    CreateUserUseCase.execute (fmt := Zod.emailRegex) w
      (request "invalid-email" "Test User") 0 in
  exists entry,
    BaseController.execute fn Repo.empty []
    = (BaseController.Failure "ValidationError" "Invalid input",
       Repo.empty, [entry]).
Proof.
  intros fn.
  destruct (controller_returns_tagged_response fn Repo.empty [])
    as (_ & Hthrows & _).
  destruct (Hthrows
              (ValidationError "Invalid input"
                 [mkIssue invalid_format ["email"] (Some "Invalid email format")])
              Repo.empty) as [entry Hentry].
  - vm_compute. reflexivity.
  - reflexivity.
  - exists entry. exact Hentry.
Defined.

Lemma list_users_checks_limit_first_witness :
  let r := threeUsers in
  (exists message issues,
     ListUsersUseCase.execute r (ListUsersUseCase.mkInput (Some 101) None)
     = (Rejected (ValidationError message issues), r))
  /\ snd (ListUsersUseCase.execute ([] : list string, r)
            (ListUsersUseCase.mkInput (Some 0) (Some 1))) = ([], r)
  /\ fst (snd (ListUsersUseCase.execute ([] : list string, r)
                 (ListUsersUseCase.mkInput None None))) = ["list"].
Proof.
  intros r. split; [|split].
  - apply (list_users_checks_limit_first r []
             (ListUsersUseCase.mkInput (Some 101) None)).
    simpl. lia.
  - apply (list_users_checks_limit_first r []
             (ListUsersUseCase.mkInput (Some 0) (Some 1))).
    simpl. lia.
  - apply (list_users_checks_limit_first r []
             (ListUsersUseCase.mkInput None None)).
    simpl. lia.
Defined.

(** ** The test suites of the repository, replayed on the model *)

Section UseCaseTests.

Example should_create_a_user_with_valid_input :
  executeOnMock None (request "test@example.com" "Test User")
  = Resolved (mkUser 1 "test@example.com" "Test User" 0 0).
Proof. reflexivity. Qed.

Example should_throw_ValidationError_for_invalid_email :
  exists issues,
    executeOnMock None (request "invalid-email" "Test User")
    = Rejected (ValidationError "Invalid input" issues).
Proof. by eexists. Qed.

Example should_throw_ValidationError_for_empty_name :
  exists issues,
    executeOnMock None (request "test@example.com" "")
    = Rejected (ValidationError "Invalid input" issues).
Proof. by eexists. Qed.

Example should_throw_ValidationError_for_missing_email :
  exists issues,
    executeOnMock None (JsObject [("name", JsString "Test User")])
    = Rejected (ValidationError "Invalid input" issues).
Proof. by eexists. Qed.

Example should_throw_error_if_email_already_exists :
  executeOnMock (Some (mkUser 1 "existing@example.com" "Existing User" 0 0))
    (request "existing@example.com" "New User")
  = Rejected (Error "User with this email already exists").
Proof. reflexivity. Qed.

Example should_normalize_email_to_lowercase :
  executeOnMock None (request "TEST@EXAMPLE.COM" "Test User")
  = Resolved (mkUser 1 "test@example.com" "Test User" 0 0).
Proof. reflexivity. Qed.

Example should_trim_whitespace_from_name :
  executeOnMock None (request "test@example.com" "  Test User  ")
  = Resolved (mkUser 1 "test@example.com" "Test User" 0 0).
Proof. reflexivity. Qed.

End UseCaseTests.

Section RepositoryTests.

Example should_create_a_user :
  Repo.create Repo.empty (mkCreateUserInput "test@example.com" "Test User") 0
  = (testUser, oneUser).
Proof. reflexivity. Qed.

Example should_find_user_by_id :
  Repo.findById oneUser (Js.numberToString (id testUser)) = Some testUser.
Proof. reflexivity. Qed.

Example should_find_user_by_email :
  Repo.findByEmail oneUser "test@example.com" = Some testUser.
Proof. reflexivity. Qed.

Example should_return_null_when_user_not_found :
  Repo.findById Repo.empty "999" = None
  /\ Repo.findByEmail Repo.empty "nonexistent@example.com" = None.
Proof. split; reflexivity. Qed.

Example should_list_users : length (Repo.list threeUsers None None) = 3%nat.
Proof. reflexivity. Qed.

Example should_list_users_with_limit :
  length (Repo.list threeUsers (Some 2) None) = 2%nat.
Proof. reflexivity. Qed.

Example should_update_user :
  fst (Repo.update oneUser "1"
         (mkUpdateUserInput None (Some "Updated Name")) 5)
  = Some (mkUser 1 "test@example.com" "Updated Name" 0 5).
Proof. reflexivity. Qed.

Example should_delete_user :
  fst (Repo.delete oneUser "1") = true
  /\ Repo.findById (snd (Repo.delete oneUser "1")) "1" = None.
Proof. split; reflexivity. Qed.

End RepositoryTests.

(** ** Samples of the string primitives *)

Example parseInt_samples :
  Js.parseInt "42" = Some 42 /\ Js.parseInt "  -7px" = Some (-7)
  /\ Js.parseInt "abc" = None /\ Js.parseInt "" = None
  /\ Js.parseInt "1.5" = Some 1 /\ Js.parseInt "+" = None
  /\ Js.parseInt "007" = Some 7.
Proof. repeat split; reflexivity. Qed.

Example string_samples :
  Js.toLowerCase "TEST@Example.COM" = "test@example.com"
  /\ Js.trim "  Test User  " = "Test User" /\ Js.trim "   " = ""
  /\ Js.numberToString 120 = "120"
  /\ Js.slice [1; 2; 3; 4] 1 3 = [2; 3]
  /\ Js.slice [1; 2; 3; 4] (-1) 9 = [4]
  /\ Js.slice [1; 2; 3; 4] 0 (-1) = [1; 2; 3].
Proof. repeat split; reflexivity. Qed.

(** * Further properties of the repository *)

Section JsMapOrder.
Context {V : Type}.
Implicit Types (m : list (Z * V)) (k : Z) (v : V).

Lemma get_None_keys k m : JsMap.get k m = None <-> k ∉ JsMap.keys m.
Proof.
  induction m as [|[k' v'] m IH]; simpl.
  - split; [intros _; apply not_elem_of_nil | done].
  - rewrite not_elem_of_cons. destruct (Z.eqb_spec k k') as [->|Hne].
    + split; [done | by intros [? _]].
    + rewrite IH. split; [done | by intros [_ ?]].
Qed.

Lemma set_absent k v m : JsMap.get k m = None -> JsMap.set k v m = m ++ [(k, v)].
Proof.
  induction m as [|[k' v'] m IH]; simpl; [done|].
  destruct (Z.eqb_spec k k'); [done|]. intros H. by rewrite IH.
Qed.

Lemma keys_set_present k v v0 m :
  JsMap.get k m = Some v0 -> JsMap.keys (JsMap.set k v m) = JsMap.keys m.
Proof.
  induction m as [|[k' v'] m IH]; simpl; [done|].
  destruct (Z.eqb_spec k k') as [->|]; [done|]. intros H. simpl.
  by rewrite IH.
Qed.

Lemma remove_absent k m : JsMap.get k m = None -> JsMap.remove k m = m.
Proof.
  induction m as [|[k' v'] m IH]; simpl; [done|].
  destruct (Z.eqb_spec k k'); [done|]. intros H. by rewrite IH.
Qed.

Lemma remove_filter k m :
  JsMap.remove k m = filter (fun p => fst p <> k) m.
Proof.
  induction m as [|[k' v'] m IH]; simpl; [done|].
  destruct (Z.eqb_spec k k') as [->|Hne].
  - rewrite filter_cons_False by (simpl; auto). done.
  - rewrite filter_cons_True by (simpl; auto). by rewrite IH.
Qed.

End JsMapOrder.

Section RepoFacts.
Implicit Types (r : Repo.t).

Lemma nextId_update r idstr input now :
  Repo.nextId (snd (Repo.update r idstr input now)) = Repo.nextId r.
Proof.
  unfold Repo.update. destruct (Js.parseInt idstr) as [k|]; [|done].
  by destruct (JsMap.get k (Repo.users r)).
Qed.

Lemma nextId_delete r idstr :
  Repo.nextId (snd (Repo.delete r idstr)) = Repo.nextId r.
Proof.
  unfold Repo.delete. destruct (Js.parseInt idstr) as [k|]; [|done].
  by destruct (JsMap.get k (Repo.users r)).
Qed.

(** The key [nextId] is free in a well-formed state. *)
Lemma nextId_fresh r : wellFormed r -> JsMap.get (Repo.nextId r) (Repo.users r) = None.
Proof.
  intros [_ _ Hids]. destruct (JsMap.get _ _) as [u|] eqn:Hget; [|done].
  apply get_elem_of, Hids in Hget. lia.
Qed.

(** Stored e-mails are lowercase in every reachable state. *)
Lemma reachable_lowercase r k u :
  Repo.reachable r -> (k, u) ∈ Repo.users r ->
  Js.toLowerCase (email u) = email u.
Proof.
  intros Hreach. revert k u.
  induction Hreach as [|r c Hreach IH]; intros k u Hin.
  - by apply elem_of_nil in Hin.
  - pose proof (reachable_wellFormed r Hreach) as [_ Hnd _].
    destruct c as [input now|idstr input now|idstr]; simpl in Hin.
    + apply elem_of_set in Hin as [[-> ->]|[_ Hin]]; [|by eauto|done].
      simpl. apply toLowerCase_idem.
    + revert Hin. unfold Repo.update.
      destruct (Js.parseInt idstr) as [k0|]; [|by eauto].
      destruct (JsMap.get k0 (Repo.users r)) as [user|] eqn:Hget; [|by eauto].
      simpl. intros Hin.
      apply elem_of_set in Hin as [[-> ->]|[_ Hin]]; [|by eauto|done].
      simpl. destruct (up_email input); [apply toLowerCase_idem|].
      eapply IH. by apply get_elem_of.
    + revert Hin. unfold Repo.delete.
      destruct (Js.parseInt idstr) as [k0|]; [|by eauto].
      destruct (JsMap.get k0 (Repo.users r)) as [user|] eqn:Hget; [|by eauto].
      simpl. intros Hin. apply elem_of_remove in Hin as [_ Hin]. eauto.
Qed.

End RepoFacts.

Section RepositoryExtras.
Implicit Types (r : Repo.t).

(** X1. After [create], [findById] with the decimal string of the new id
    and [findByEmail] with the input e-mail in any letter case return the
    created user; the repository stores the name as given and the e-mail
    in lower case. *)
Theorem create_then_lookup r input now e :
  Repo.reachable r ->
  Js.toLowerCase e = Js.toLowerCase (in_email input) ->
  let created := fst (Repo.create r input now) in
  let r' := snd (Repo.create r input now) in
  Repo.findById r' (Js.numberToString (id created)) = Some created
  /\ Repo.findByEmail r' e = Some created
  /\ name created = in_name input
  /\ email created = Js.toLowerCase e.
Proof.
  intros Hreach He created r'.
  pose proof (wf_next r (reachable_wellFormed r Hreach)) as Hnext.
  split; [|split; [|by split]].
  - unfold Repo.findById. simpl.
    rewrite parseInt_numberToString by lia. apply get_set_eq.
  - unfold Repo.findByEmail. simpl. rewrite He, lookup_insert_eq.
    destruct (Z.eqb_spec (Repo.nextId r) 0); [lia|]. apply get_set_eq.
Qed.

(** X2. [delete] of a stored user answers true and removes that user and
    nobody else: the id no longer resolves, every other id resolves as
    before, the id counter is untouched, and a second [delete] answers
    false and changes nothing. *)
Theorem delete_removes_the_user r idstr k user :
  Js.parseInt idstr = Some k ->
  JsMap.get k (Repo.users r) = Some user ->
  let r' := snd (Repo.delete r idstr) in
  fst (Repo.delete r idstr) = true
  /\ Repo.findById r' idstr = None
  /\ (forall s k', Js.parseInt s = Some k' -> k' <> k ->
        Repo.findById r' s = Repo.findById r s)
  /\ Repo.delete r' idstr = (false, r')
  /\ Repo.nextId r' = Repo.nextId r.
Proof.
  intros Hparse Hget.
  assert (Repo.delete r idstr
          = (true, {| Repo.users := JsMap.remove k (Repo.users r);
                      Repo.emailIndex :=
                        base.delete (email user) (Repo.emailIndex r);
                      Repo.nextId := Repo.nextId r |})) as ->
    by (unfold Repo.delete; by rewrite Hparse, Hget).
  simpl. split; [done|]. split; [|split; [|split]].
  - unfold Repo.findById. rewrite Hparse. simpl. apply get_remove_eq.
  - intros s k' Hs Hne. unfold Repo.findById. rewrite Hs. simpl.
    apply get_remove_ne. congruence.
  - unfold Repo.delete. rewrite Hparse. simpl. by rewrite get_remove_eq.
  - done.
Qed.

(** X3. In a state whose e-mail index agrees with the users map (every
    guarded state), [findByEmail(e)] returns a user exactly when that user
    is stored and carries the lowercased [e]. *)
Theorem findByEmail_finds_exactly_the_owner r e u :
  indexed r ->
  Repo.findByEmail r e = Some u
  <-> (exists k, (k, u) ∈ Repo.users r) /\ email u = Js.toLowerCase e.
Proof.
  intros Hix. split.
  - unfold Repo.findByEmail.
    destruct (Repo.emailIndex r !! Js.toLowerCase e) as [k|] eqn:Hidx; [|done].
    destruct (Z.eqb_spec k 0); [done|]. intros Hget.
    apply get_elem_of in Hget.
    destruct (ix_sound r Hix _ _ Hidx) as (u' & Hin & He).
    rewrite (stored_functional r k u u' (ix_wf r Hix) Hget Hin).
    split; [by exists k|done].
  - intros [[k Hin] He]. by apply (findByEmail_hit r e k u).
Qed.

(** X4. Deleting a user frees its e-mail: whatever the state, after
    [delete] of a stored user [CreateUserUseCase.execute] with that e-mail
    (in any letter case) and an otherwise valid input creates a user. *)
Theorem delete_frees_the_email {fmt : EmailFormat} r idstr k user input v now :
  Js.parseInt idstr = Some k ->
  JsMap.get k (Repo.users r) = Some user ->
  safeParse createUserInputSchema input = ParseSuccess v ->
  Js.toLowerCase (in_email v) = email user ->
  exists created r'',
    CreateUserUseCase.execute (snd (Repo.delete r idstr)) input now
    = (Resolved created, r'')
    /\ email created = email user
    /\ name created = in_name v.
Proof.
  intros Hparse Hget Hok He.
  rewrite (execute_creates _ input v now Hok).
  - simpl. eexists _, _. split; [reflexivity|]. simpl.
    by rewrite toLowerCase_idem, He.
  - unfold Repo.findByEmail, Repo.delete. rewrite Hparse, Hget. simpl.
    by rewrite He, lookup_delete_eq.
Qed.

End RepositoryExtras.

Section UpdateExtras.
Implicit Types (r : Repo.t).

(** X5. [update] with a new non-empty e-mail moves the index entry: the
    user is then found under the new e-mail, and no longer under the old
    one unless the two differ in letter case only. *)
Theorem update_moves_the_index_entry r idstr k user e newName now :
  Repo.reachable r ->
  Js.parseInt idstr = Some k ->
  JsMap.get k (Repo.users r) = Some user ->
  e <> "" -> e <> email user ->
  let input := {| up_email := Some e; up_name := newName |} in
  let r' := snd (Repo.update r idstr input now) in
  exists updated,
    fst (Repo.update r idstr input now) = Some updated
    /\ email updated = Js.toLowerCase e
    /\ Repo.findByEmail r' e = Some updated
    /\ (Js.toLowerCase e <> email user ->
        Repo.findByEmail r' (email user) = None).
Proof.
  intros Hreach Hparse Hget He Hne input r'.
  pose proof (reachable_wellFormed r Hreach) as Hwf.
  pose proof (get_elem_of _ _ _ Hget) as Hin.
  destruct (wf_ids r Hwf _ _ Hin) as [_ Hk].
  subst r'. unfold Repo.update. rewrite Hparse, Hget.
  unfold Repo.emailChanged. simpl.
  rewrite !bool_decide_eq_false_2 by done. simpl.
  eexists. split; [reflexivity|]. split; [done|]. split.
  - unfold Repo.findByEmail. simpl. rewrite lookup_insert_eq.
    destruct (Z.eqb_spec k 0); [lia|]. apply get_set_eq.
  - intros Hcase. unfold Repo.findByEmail. simpl.
    rewrite (reachable_lowercase r k user Hreach Hin).
    rewrite lookup_insert_ne by done. by rewrite lookup_delete_eq.
Qed.

(** X6. [update] with the empty string as e-mail stores the empty e-mail
    but leaves the index alone (the guard treats the empty string as no
    e-mail): a user that was found under its e-mail is still found under
    that old e-mail, now carrying the empty one. *)
Theorem update_with_empty_email_keeps_the_index r idstr k user newName now :
  wellFormed r ->
  Js.parseInt idstr = Some k ->
  JsMap.get k (Repo.users r) = Some user ->
  let input := {| up_email := Some ""; up_name := newName |} in
  let r' := snd (Repo.update r idstr input now) in
  exists updated,
    fst (Repo.update r idstr input now) = Some updated
    /\ email updated = ""
    /\ Repo.emailIndex r' = Repo.emailIndex r
    /\ (Repo.findByEmail r (email user) = Some user ->
        Repo.findByEmail r' (email user) = Some updated).
Proof.
  intros Hwf Hparse Hget input r'. subst r'.
  unfold Repo.update. rewrite Hparse, Hget. simpl.
  eexists. split; [reflexivity|]. split; [done|]. split; [done|].
  unfold Repo.findByEmail. simpl.
  destruct (Repo.emailIndex r !! Js.toLowerCase (email user)) as [k'|]; [|done].
  destruct (Z.eqb_spec k' 0); [done|]. intros Hget'.
  assert (k' = k) as ->.
  { apply get_elem_of in Hget, Hget'.
    destruct (wf_ids r Hwf _ _ Hget), (wf_ids r Hwf _ _ Hget'). congruence. }
  apply get_set_eq.
Qed.

(** X7. The users map keeps insertion order: in a reachable state
    [create] appends the new user at the end of the listing, [update]
    leaves every user at its position, and [delete] takes out the users
    with the parsed id and nothing else. *)
Theorem listing_keeps_insertion_order r :
  Repo.reachable r ->
  (forall input now,
     JsMap.values (Repo.users (snd (Repo.create r input now)))
     = JsMap.values (Repo.users r) ++ [fst (Repo.create r input now)])
  /\ (forall idstr input now,
        map id (JsMap.values (Repo.users (snd (Repo.update r idstr input now))))
        = map id (JsMap.values (Repo.users r)))
  /\ (forall idstr k, Js.parseInt idstr = Some k ->
        JsMap.values (Repo.users (snd (Repo.delete r idstr)))
        = filter (fun u => id u <> k) (JsMap.values (Repo.users r))).
Proof.
  intros Hreach. pose proof (reachable_wellFormed r Hreach) as Hwf.
  assert (forall m : list (Z * User),
            (forall k u, (k, u) ∈ m -> id u = k) ->
            map id (JsMap.values m) = JsMap.keys m) as Hkeys.
  { intros m Hm. unfold JsMap.values, JsMap.keys. rewrite map_map.
    apply map_ext_in. intros [k u] Hin. apply list_elem_of_In in Hin.
    by apply Hm. }
  split; [|split].
  - intros input now. simpl. rewrite set_absent by by apply nextId_fresh.
    unfold JsMap.values. by rewrite map_app.
  - intros idstr input now.
    pose proof (wellFormed_update r idstr input now Hwf) as Hwf'.
    rewrite (Hkeys (Repo.users r))
      by (intros k u Hin; by apply (wf_ids r Hwf)).
    rewrite (Hkeys (Repo.users (snd (Repo.update r idstr input now))))
      by (intros k u Hin; by apply (wf_ids _ Hwf')).
    unfold Repo.update. destruct (Js.parseInt idstr) as [k|]; [|done].
    destruct (JsMap.get k (Repo.users r)) as [user|] eqn:Hget; [|done].
    simpl. by eapply keys_set_present.
  - intros idstr k Hparse. unfold Repo.delete. rewrite Hparse.
    assert (JsMap.values (JsMap.remove k (Repo.users r))
            = filter (fun u => id u <> k) (JsMap.values (Repo.users r))) as Hrem.
    { rewrite remove_filter. unfold JsMap.values.
      generalize (wf_ids r Hwf). induction (Repo.users r) as [|[k' u] m IH];
        intros Hids; [done|].
      assert (id u = k') as Hu by (apply Hids; left).
      assert (forall k0 u0, (k0, u0) ∈ m -> id u0 = k0 /\ 1 <= k0 < Repo.nextId r)
        as Hm by (intros; apply Hids; by right).
      simpl. destruct (decide (k' = k)) as [->|Hne].
      - rewrite filter_cons_False by (simpl; auto).
        rewrite filter_cons_False by (simpl; rewrite Hu; auto). by apply IH.
      - rewrite filter_cons_True by (simpl; auto).
        rewrite filter_cons_True by (simpl; rewrite Hu; auto).
        simpl. f_equal. by apply IH. }
    destruct (JsMap.get k (Repo.users r)) as [user|] eqn:Hget; simpl; [done|].
    by rewrite <- Hrem, remove_absent.
Qed.

End UpdateExtras.

Section IdentifierExtras.
Implicit Types (r : Repo.t).

Lemma createdIds_consecutive cs : forall r,
  Repo.createdIds r cs
  = seqZ (Repo.nextId r) (Z.of_nat (length (Repo.createdIds r cs)))
  /\ Repo.nextId (fold_left Repo.step cs r)
     = Repo.nextId r + Z.of_nat (length (Repo.createdIds r cs)).
Proof.
  induction cs as [|c cs IH]; intros r; simpl.
  - split; [done|lia].
  - destruct (IH (Repo.step r c)) as [Hids Hnext].
    destruct c as [input now|idstr input now|idstr].
    + simpl in *. split.
      * rewrite seqZ_cons by lia. f_equal.
        rewrite Hids at 1. f_equal. lia.
      * rewrite Hnext. lia.
    + simpl in *. rewrite nextId_update in *. by split.
    + simpl in *. rewrite nextId_delete in *. by split.
Qed.

(** X8. A fresh repository hands out the identifiers 1, 2, 3, ... in
    call order, whatever updates and deletes come in between, and its
    counter is always one more than the number of users ever created. *)
Theorem identifiers_count_from_one cs :
  let n := Z.of_nat (length (Repo.createdIds Repo.empty cs)) in
  Repo.createdIds Repo.empty cs = seqZ 1 n
  /\ Repo.nextId (Repo.run cs) = n + 1.
Proof.
  destruct (createdIds_consecutive cs Repo.empty) as [Hids Hnext].
  simpl in *. split; [done|]. unfold Repo.run. rewrite Hnext. lia.
Qed.


Lemma trimStart_app pre t :
  Js.trimStart pre = "" -> Js.trimStart (pre +:+ t) = Js.trimStart t.
Proof.
  induction pre as [|c pre IH]; simpl; [done|].
  destruct (Js.isWhiteSpace c); [exact IH|done].
Qed.

Lemma digitPrefix_app d suffix :
  Js.digitPrefix suffix = Nil ->
  Js.digitPrefix (NilEmpty.string_of_uint d +:+ suffix) = d.
Proof. intros Hs. induction d; simpl; by rewrite ?IHd. Qed.

Lemma parseInt_lenient k pre suffix :
  0 < k -> Js.trimStart pre = "" -> Js.digitPrefix suffix = Nil ->
  Js.parseInt (pre +:+ Js.numberToString k +:+ suffix) = Some k.
Proof.
  intros Hk Hpre Hsuf. destruct k as [|p|p]; try lia.
  unfold Js.parseInt. rewrite trimStart_app by done.
  unfold Js.numberToString. simpl.
  pose proof (DecimalPos.Unsigned.to_uint_nonnil p) as Hnil.
  pose proof (DecimalZ.of_to (Z.pos p)) as Hval. simpl in Hval.
  unfold NilZero.string_of_uint.
  destruct (Pos.to_uint p) as [|d|d|d|d|d|d|d|d|d|d]; [done|..]; simpl;
    rewrite digitPrefix_app by done; by rewrite Z.mul_1_l, Hval.
Qed.

(** X10. Id strings are read by [parseInt]: white space in front of the
    decimal digits of a positive id and anything after them that does not
    begin with a digit are ignored by [findById], [update] and [delete];
    and in a reachable state a string that parses to zero or to a negative
    number names nobody. *)
Theorem id_strings_are_read_leniently r k pre suffix :
  0 < k -> Js.trimStart pre = "" -> Js.digitPrefix suffix = Nil ->
  let s := pre +:+ Js.numberToString k +:+ suffix in
  Repo.findById r s = JsMap.get k (Repo.users r)
  /\ (forall input now,
        Repo.update r s input now
        = Repo.update r (Js.numberToString k) input now)
  /\ Repo.delete r s = Repo.delete r (Js.numberToString k)
  /\ (forall s' k', Repo.reachable r -> Js.parseInt s' = Some k' -> k' < 1 ->
        Repo.findById r s' = None).
Proof.
  intros Hk Hpre Hsuf s.
  pose proof (parseInt_lenient k pre suffix Hk Hpre Hsuf) as Hs. fold s in Hs.
  pose proof (parseInt_numberToString k Hk) as Hplain.
  unfold Repo.findById, Repo.update, Repo.delete. rewrite Hs, Hplain.
  do 3 (split; [done|]).
  intros s' k' Hreach Hs' Hk'. rewrite Hs'.
  destruct (JsMap.get k' (Repo.users r)) as [u|] eqn:Hget; [|done].
  apply get_elem_of in Hget.
  destruct (wf_ids r (reachable_wellFormed r Hreach) _ _ Hget). lia.
Qed.

End IdentifierExtras.

(** * Further properties of the schemas *)

Section SchemaExtras.
Context {fmt : EmailFormat}.

Lemma toLowerCase_length s : String.length (Js.toLowerCase s) = String.length s.
Proof. induction s as [|c s IH]; simpl; [done|by rewrite IH]. Qed.

Lemma trimEnd_idem s : Js.trimEnd (Js.trimEnd s) = Js.trimEnd s.
Proof.
  induction s as [|c s IH]; simpl; [done|].
  destruct (Js.trimEnd s) as [|c' s'] eqn:E.
  - destruct (Js.isWhiteSpace c) eqn:Ec; simpl; [done|]. by rewrite Ec.
  - simpl. simpl in IH. by rewrite IH.
Qed.

Lemma trimStart_trimEnd s :
  Js.trimStart (Js.trimEnd (Js.trimStart s)) = Js.trimEnd (Js.trimStart s).
Proof.
  induction s as [|c s IH]; simpl; [done|].
  destruct (Js.isWhiteSpace c) eqn:Ec; [done|]. simpl.
  destruct (Js.trimEnd s); rewrite ?Ec; simpl; by rewrite Ec.
Qed.

Lemma trim_idem s : Js.trim (Js.trim s) = Js.trim s.
Proof. unfold Js.trim. by rewrite trimStart_trimEnd, trimEnd_idem. Qed.

(** Only the [email] and [name] properties of the input are read. *)
Lemma safeParse_reads_two_properties schema props :
  safeParse schema (JsObject props)
  = safeParse schema
      (JsObject [("email", getProp "email" props);
                 ("name", getProp "name" props)]).
Proof. reflexivity. Qed.

Lemma safeParse_success_inv input v :
  safeParse createUserInputSchema input = ParseSuccess v ->
  exists props e n,
    input = JsObject props
    /\ getProp "email" props = JsString e
    /\ getProp "name" props = JsString n
    /\ isEmail e = true /\ 1 <= len e <= 255 /\ 1 <= len n <= 100
    /\ v = {| in_email := e; in_name := Js.trim n |}.
Proof.
  destruct input as [| | | | |props]; try done.
  unfold safeParse, len.
  destruct (getProp "email" props) as [| | | |e|] eqn:He;
    try (simpl; by destruct (parseString _ _ _)).
  destruct (getProp "name" props) as [| | | |n|] eqn:Hn;
    try (destruct (parseString _ _ (JsString e)) as [e0 [|i ie]]; by simpl).
  cbn.
  destruct (isEmail e) eqn:Hpat; cbn;
  destruct (Z.ltb_spec (Z.of_nat (String.length e)) 1); cbn;
  destruct (Z.gtb_spec (Z.of_nat (String.length e)) 255); cbn;
  destruct (Z.ltb_spec (Z.of_nat (String.length n)) 1); cbn;
  destruct (Z.gtb_spec (Z.of_nat (String.length n)) 100); cbn;
  try done.
  intros [= <-]. exists props, e, n. repeat split; (done || lia).
Qed.

(** X11. [createUserInputSchema] accepts an input exactly when it is an
    object whose [email] property is a string that matches the e-mail
    pattern and has 1 to 255 code units and whose [name] property is a
    string of 1 to 100 code units as given; other properties are ignored,
    the e-mail comes out as given and the name trimmed. *)
Theorem create_schema_accepts_exactly input v :
  safeParse createUserInputSchema input = ParseSuccess v
  <-> exists props e n,
        input = JsObject props
        /\ getProp "email" props = JsString e
        /\ getProp "name" props = JsString n
        /\ isEmail e = true /\ 1 <= len e <= 255 /\ 1 <= len n <= 100
        /\ v = {| in_email := e; in_name := Js.trim n |}.
Proof.
  split; [apply safeParse_success_inv|].
  intros (props & e & n & -> & He & Hn & Hpat & Hle & Hln & ->).
  rewrite safeParse_reads_two_properties, He, Hn.
  by apply safeParse_accepts.
Qed.

(** X12. Every user that [CreateUserUseCase.execute] creates in the
    in-memory repository is normalized: the name is trimmed and has at
    most 100 code units, the e-mail is lower case and has 1 to 255 code
    units, and the id is the repository's counter. *)
Theorem created_users_are_normalized (r : Repo.t) input now u r' :
  CreateUserUseCase.execute r input now = (Resolved u, r') ->
  Js.trim (name u) = name u /\ len (name u) <= 100
  /\ Js.toLowerCase (email u) = email u /\ 1 <= len (email u) <= 255
  /\ id u = Repo.nextId r /\ createdAt u = now /\ updatedAt u = now.
Proof.
  unfold CreateUserUseCase.execute.
  destruct (safeParse createUserInputSchema input) as [v|issues] eqn:Hparse;
    [|done].
  apply safeParse_success_inv in Hparse
    as (props & e & n & _ & _ & _ & _ & Hle & Hln & ->).
  simpl. destruct (Repo.findByEmail r e); [done|].
  intros [= <- _]. simpl. unfold len in *.
  rewrite trim_idem, !toLowerCase_idem, !toLowerCase_length.
  pose proof (trim_length n). repeat split; (done || lia).
Qed.

End SchemaExtras.

Section UpdateSchemaExtras.
Context {fmt : EmailFormat}.

Ltac case_checks :=
  repeat match goal with
    | |- context [isEmail ?e] => destruct (isEmail e) eqn:?; cbn
    | |- context [Z.ltb ?a ?b] => destruct (Z.ltb_spec a b); cbn
    | |- context [Z.gtb ?a ?b] => destruct (Z.gtb_spec a b); cbn
    end.

Lemma safeParseUpdate_success_inv input d :
  safeParseUpdate updateUserInputSchema input = UpdateSuccess d ->
  exists props,
    input = JsObject props
    /\ match getProp "email" props with
       | JsUndefined => up_email d = None
       | JsString e => isEmail e = true /\ len e <= 255 /\ up_email d = Some e
       | _ => False
       end
    /\ match getProp "name" props with
       | JsUndefined => up_name d = None
       | JsString n => 1 <= len n <= 100 /\ up_name d = Some (Js.trim n)
       | _ => False
       end.
Proof.
  destruct input as [| | | | |props]; try done.
  intros H. exists props. split; [done|]. revert H.
  unfold safeParseUpdate, len.
  destruct (getProp "email" props) as [| |b1|z1|e|ps1];
    destruct (getProp "name" props) as [| |b2|z2|nm|ps2];
    cbn; case_checks; try done; intros [= <-]; simpl;
    repeat split; (done || lia).
Qed.

(** X13. [updateUserInputSchema] accepts an input exactly when it is an
    object in which [email] is absent or a string that matches the e-mail
    pattern and has at most 255 code units, and [name] is absent or a
    string of 1 to 100 code units as given; an absent field stays absent
    (the empty object passes), and a name comes out trimmed. *)
Theorem update_schema_accepts_exactly input d :
  safeParseUpdate updateUserInputSchema input = UpdateSuccess d
  <-> exists props,
        input = JsObject props
        /\ match getProp "email" props with
           | JsUndefined => up_email d = None
           | JsString e =>
               isEmail e = true /\ len e <= 255 /\ up_email d = Some e
           | _ => False
           end
        /\ match getProp "name" props with
           | JsUndefined => up_name d = None
           | JsString n => 1 <= len n <= 100 /\ up_name d = Some (Js.trim n)
           | _ => False
           end.
Proof.
  split; [apply safeParseUpdate_success_inv|].
  intros (props & -> & He & Hn). destruct d as [de dn]. simpl in *.
  unfold safeParseUpdate, len in *.
  destruct (getProp "email" props) as [| |b1|z1|e|ps1]; try done;
    destruct (getProp "name" props) as [| |b2|z2|nm|ps2]; try done; cbn.
  - by subst.
  - destruct Hn as [Hln ->]. subst.
    destruct (Z.ltb_spec (Z.of_nat (String.length nm)) 1); [lia|]. cbn.
    destruct (Z.gtb_spec (Z.of_nat (String.length nm)) 100); [lia|]. done.
  - destruct He as (-> & Hle & ->). subst. cbn.
    destruct (Z.gtb_spec (Z.of_nat (String.length e)) 255); [lia|]. done.
  - destruct He as (-> & Hle & ->). destruct Hn as [Hln ->]. cbn.
    destruct (Z.gtb_spec (Z.of_nat (String.length e)) 255); [lia|]. cbn.
    destruct (Z.ltb_spec (Z.of_nat (String.length nm)) 1); [lia|]. cbn.
    destruct (Z.gtb_spec (Z.of_nat (String.length nm)) 100); [lia|]. done.
Qed.

(** X14. An update that passed [updateUserInputSchema] keeps the e-mail
    index in step, provided the e-mail pattern rejects the empty string: a
    user that was found under its e-mail is found, after the update, under
    the e-mail it then carries. *)
Theorem validated_update_keeps_the_user_findable
    (r : Repo.t) idstr k user input d now :
  Repo.reachable r ->
  isEmail "" = false ->
  Js.parseInt idstr = Some k ->
  JsMap.get k (Repo.users r) = Some user ->
  Repo.findByEmail r (email user) = Some user ->
  safeParseUpdate updateUserInputSchema input = UpdateSuccess d ->
  exists updated,
    fst (Repo.update r idstr d now) = Some updated
    /\ Repo.findByEmail (snd (Repo.update r idstr d now)) (email updated)
       = Some updated.
Proof.
  intros Hreach Hempty Hparse Hget Hfound Hok.
  pose proof (reachable_wellFormed r Hreach) as Hwf.
  pose proof (get_elem_of _ _ _ Hget) as Hin.
  destruct (wf_ids r Hwf _ _ Hin) as [_ Hk].
  pose proof (reachable_lowercase r k user Hreach Hin) as Hlow.
  assert (Repo.emailIndex r !! email user = Some k) as Hidx.
  { revert Hfound. unfold Repo.findByEmail. rewrite Hlow.
    destruct (Repo.emailIndex r !! email user) as [k'|]; [|done].
    destruct (Z.eqb_spec k' 0); [done|]. intros Hget'.
    apply get_elem_of in Hget'.
    destruct (wf_ids r Hwf _ _ Hin), (wf_ids r Hwf _ _ Hget'). congruence. }
  assert (forall e, up_email d = Some e -> e <> "") as Hne.
  { apply safeParseUpdate_success_inv in Hok as (props & _ & He & _).
    intros e Hd ->. rewrite Hd in He.
    destruct (getProp "email" props); try done.
    destruct He as (Hpat & _ & [= <-]). congruence. }
  unfold Repo.update. rewrite Hparse, Hget. simpl.
  eexists. split; [reflexivity|].
  unfold Repo.findByEmail, Repo.emailChanged. simpl.
  destruct (up_email d) as [e|] eqn:Hd.
  - rewrite toLowerCase_idem.
    rewrite (bool_decide_eq_false_2 (e = "")) by by apply Hne. simpl.
    destruct (decide (e = email user)) as [->|Hdiff].
    + rewrite bool_decide_eq_true_2 by done. simpl. rewrite Hlow, Hidx.
      destruct (Z.eqb_spec k 0); [lia|]. apply get_set_eq.
    + rewrite bool_decide_eq_false_2 by done. simpl.
      rewrite lookup_insert_eq.
      destruct (Z.eqb_spec k 0); [lia|]. apply get_set_eq.
  - rewrite Hlow, Hidx.
    destruct (Z.eqb_spec k 0); [lia|]. apply get_set_eq.
Qed.

End UpdateSchemaExtras.

(** * Further properties of the use cases *)

Section UseCaseExtras.
Context {fmt : EmailFormat}.

(** X15. The calls [CreateUserUseCase.execute] makes on the repository,
    whatever the implementation: none when the schema fails, one
    [findByEmail] when the e-mail is taken, [findByEmail] then [create]
    when a user is created; it never calls another method. *)
Theorem create_user_call_protocol {R} {repo : UserRepository.port R}
    (r : R) (log : list string) input now :
  let out := CreateUserUseCase.execute (log, r) input now in
  match fst out with
  | Rejected (ValidationError _ _) => snd out = (log, r)
  | Rejected _ => fst (snd out) = log ++ ["findByEmail"]
  | Resolved _ => fst (snd out) = log ++ ["findByEmail"; "create"]
  end.
Proof.
  unfold CreateUserUseCase.execute.
  destruct (safeParse createUserInputSchema input) as [v|issues]; [|done].
  simpl. destruct (UserRepository.findByEmail r (in_email v)) as [[u|] r1].
  - done.
  - destruct (UserRepository.create r1 _ now) as [u r2]. simpl.
    by rewrite <- app_assoc.
Qed.

Lemma execute_resolved_inv (r : Repo.t) input now u r' :
  CreateUserUseCase.execute r input now = (Resolved u, r') ->
  exists v,
    safeParse createUserInputSchema input = ParseSuccess v
    /\ Repo.findByEmail r (in_email v) = None
    /\ (u, r') = Repo.create r {| in_email := Js.toLowerCase (in_email v);
                                  in_name := in_name v |} now.
Proof.
  unfold CreateUserUseCase.execute.
  destruct (safeParse createUserInputSchema input) as [v|issues]; [|done].
  simpl. destruct (Repo.findByEmail r (in_email v)) eqn:Hfind; [done|].
  intros [= <- <-]. by exists v.
Qed.

(** X16. A rejected [execute] leaves the in-memory repository exactly as
    it was; a resolved one, in a reachable state, appends the new user to
    the listing and touches nobody else. *)
Theorem execute_changes_the_repository_only_on_success (r : Repo.t) input now :
  (forall e r', CreateUserUseCase.execute r input now = (Rejected e, r') ->
     r' = r)
  /\ (Repo.reachable r ->
      forall u r', CreateUserUseCase.execute r input now = (Resolved u, r') ->
        JsMap.values (Repo.users r') = JsMap.values (Repo.users r) ++ [u]
        /\ Repo.nextId r' = Repo.nextId r + 1).
Proof.
  split.
  - unfold CreateUserUseCase.execute.
    destruct (safeParse createUserInputSchema input) as [v|issues];
      [|by intros e r' [= _ <-]].
    simpl. destruct (Repo.findByEmail r (in_email v)); [|done].
    by intros e r' [= _ <-].
  - intros Hreach u r' Hex.
    apply execute_resolved_inv in Hex as (v & _ & _ & [= -> ->]). simpl.
    rewrite set_absent by (by apply nextId_fresh, reachable_wellFormed).
    unfold JsMap.values. by rewrite map_app.
Qed.

(** X17. After [execute] has created a user, a further [execute] with
    the same e-mail in any letter case, and an input the schema accepts,
    is rejected with the plain [Error] and changes nothing. *)
Theorem repeated_execute_is_rejected (r : Repo.t) input now u r' input' v' now' :
  Repo.reachable r ->
  CreateUserUseCase.execute r input now = (Resolved u, r') ->
  safeParse createUserInputSchema input' = ParseSuccess v' ->
  Js.toLowerCase (in_email v') = email u ->
  CreateUserUseCase.execute r' input' now'
  = (Rejected (Error "User with this email already exists"), r').
Proof.
  intros Hreach Hex Hok He.
  pose proof (wf_next r (reachable_wellFormed r Hreach)) as Hnext.
  apply execute_resolved_inv in Hex as (v & _ & _ & [= -> ->]).
  unfold CreateUserUseCase.execute. rewrite Hok. simpl.
  unfold Repo.findByEmail. simpl. simpl in He. rewrite He, lookup_insert_eq.
  destruct (Z.eqb_spec (Repo.nextId r) 0); [lia|]. by rewrite get_set_eq.
Qed.

Lemma numberToString_nonempty k : 0 < k -> Js.numberToString k <> "".
Proof.
  intros Hk. destruct k as [|p|p]; try lia.
  unfold Js.numberToString. simpl.
  pose proof (DecimalPos.Unsigned.to_uint_nonnil p) as Hnil.
  unfold NilZero.string_of_uint. by destruct (Pos.to_uint p).
Qed.

(** X18. The life of a user through the use cases: once [execute] has
    created it, [GetUserUseCase.execute] with the decimal string of its id
    resolves with it and changes nothing; after [delete] the same call is
    rejected with a [NotFoundError] that quotes the id. With the empty
    string as id the message names no identifier. *)
Theorem get_user_follows_create_and_delete (r : Repo.t) input now u r' :
  Repo.reachable r ->
  CreateUserUseCase.execute r input now = (Resolved u, r') ->
  let idstr := Js.numberToString (id u) in
  let r'' := snd (Repo.delete r' idstr) in
  GetUserUseCase.execute r' idstr = (Resolved u, r')
  /\ GetUserUseCase.execute r'' idstr
     = (Rejected
          (NotFoundError
             ("User with identifier '" +:+ idstr +:+ "' not found")), r'')
  /\ GetUserUseCase.execute r'' ""
     = (Rejected (NotFoundError "User not found"), r'').
Proof.
  intros Hreach Hex idstr r''.
  pose proof (wf_next r (reachable_wellFormed r Hreach)) as Hnext.
  apply execute_resolved_inv in Hex as (v & _ & _ & [= -> ->]).
  simpl in idstr.
  assert (Js.parseInt idstr = Some (Repo.nextId r)) as Hparse
    by (apply parseInt_numberToString; lia).
  assert (idstr <> "") as Hne by (apply numberToString_nonempty; lia).
  unfold GetUserUseCase.execute. simpl. unfold Repo.findById.
  split; [|split].
  - rewrite Hparse. simpl. by rewrite get_set_eq.
  - subst r''. unfold Repo.delete. rewrite Hparse. simpl.
    rewrite get_set_eq. simpl. rewrite get_remove_eq.
    unfold newNotFoundError. simpl.
    by rewrite bool_decide_eq_false_2.
  - done.
Qed.

End UseCaseExtras.

(** * Properties of the controller and the server actions *)

Section ControllerExtras.
Context {fmt : EmailFormat} {dates : DateFormat}.

(** X19. What the controller creates it also returns: after a successful
    [createUser] on the in-memory repository, [getUserById] with the id of
    the response answers with the very same response and leaves the
    repository alone. *)
Theorem controller_create_then_get (r : Repo.t) input now out logged
    resp w' logged' :
  Repo.reachable r ->
  UserController.createUser input now (r, out) logged
  = (BaseController.Success resp, w', logged') ->
  exists out',
    UserController.getUserById (UserController.resp_id resp) w' logged'
    = (BaseController.Success resp, (fst w', out'), logged').
Proof.
  intros Hreach. unfold UserController.createUser, BaseController.execute.
  destruct (CreateUserUseCase.execute r _ now) as [[u|e] r1] eqn:Hex; [|done].
  intros [= <- <- <-]. simpl.
  pose proof (wf_next r (reachable_wellFormed r Hreach)) as Hnext.
  apply execute_resolved_inv in Hex as (v & _ & _ & [= -> ->]).
  unfold UserController.getUserById, BaseController.execute,
    GetUserUseCase.execute.
  simpl. unfold Repo.findById.
  rewrite parseInt_numberToString by lia. simpl. rewrite get_set_eq.
  by eexists.
Qed.

(** X20. How failures surface at the controller, on the in-memory
    repository: an input the schema rejects gives [ValidationError] /
    [Invalid input]; a taken e-mail gives [Error] / [User with this email
    already exists]; an unknown, non-empty id gives [NotFoundError] with
    the id quoted; a limit outside 1..100 gives [ValidationError] /
    [Limit must be between 1 and 100]. Each time the repository is
    untouched and one error entry is logged. *)
Theorem controller_error_tags (r : Repo.t) out logged :
  (forall input now issues,
     safeParse createUserInputSchema
       (request (UserController.req_email input) (UserController.req_name input))
     = ParseFailure issues ->
     exists out' entry,
       UserController.createUser input now (r, out) logged
       = (BaseController.Failure "ValidationError" "Invalid input",
          (r, out'), logged ++ [entry]))
  /\ (forall input now v u,
        safeParse createUserInputSchema
          (request (UserController.req_email input)
             (UserController.req_name input))
        = ParseSuccess v ->
        Repo.findByEmail r (in_email v) = Some u ->
        exists out' entry,
          UserController.createUser input now (r, out) logged
          = (BaseController.Failure "Error"
               "User with this email already exists",
             (r, out'), logged ++ [entry]))
  /\ (forall id, idUnknown r id -> id <> "" ->
        exists out' entry,
          UserController.getUserById id (r, out) logged
          = (BaseController.Failure "NotFoundError"
               ("User with identifier '" +:+ id +:+ "' not found"),
             (r, out'), logged ++ [entry]))
  /\ (forall limit offset,
        default 10 limit < 1 \/ 100 < default 10 limit ->
        exists out' entry,
          UserController.listUsers limit offset (r, out) logged
          = (BaseController.Failure "ValidationError"
               "Limit must be between 1 and 100",
             (r, out'), logged ++ [entry])).
Proof.
  split; [|split; [|split]].
  - intros input now issues Hbad.
    unfold UserController.createUser, BaseController.execute,
      CreateUserUseCase.execute.
    rewrite Hbad. simpl. by eexists _, _.
  - intros input now v u Hok Hfound.
    unfold UserController.createUser, BaseController.execute,
      CreateUserUseCase.execute.
    rewrite Hok. simpl. rewrite Hfound. simpl. by eexists _, _.
  - intros id Hunknown Hne.
    unfold UserController.getUserById, BaseController.execute,
      GetUserUseCase.execute.
    simpl. unfold Repo.findById. unfold idUnknown in Hunknown.
    assert (match Js.parseInt id with
            | Some numericId => JsMap.get numericId (Repo.users r)
            | None => None
            end = None) as ->
      by (by destruct (Js.parseInt id)).
    unfold newNotFoundError. simpl.
    rewrite bool_decide_eq_false_2 by done. simpl. by eexists _, _.
  - intros limit offset Hbad.
    unfold UserController.listUsers, BaseController.execute,
      ListUsersUseCase.execute.
    simpl.
    assert (((default 10 limit <? 1) || (default 10 limit >? 100)) = true)
      as -> by (apply orb_true_iff; rewrite Z.ltb_lt, Z.gtb_gt; lia).
    simpl. by eexists _, _.
Qed.


(** X22. Every controller call, on any repository, logs one debug entry
    when it begins and then either one trace entry (success) or one error
    entry that carries the message of the failure response, never both. *)
Theorem controller_logs_each_call_once {R} {repo : UserRepository.port R}
    (r : R) out logged input now id limit offset :
  loggedAsOneCall out logged
    (UserController.createUser input now (r, out) logged)
  /\ loggedAsOneCall out logged
       (UserController.getUserById id (r, out) logged)
  /\ loggedAsOneCall out logged
       (UserController.listUsers limit offset (r, out) logged).
Proof.
  unfold loggedAsOneCall, UserController.createUser,
    UserController.getUserById, UserController.listUsers,
    BaseController.execute.
  split; [|split].
  - destruct (CreateUserUseCase.execute r _ now) as [[u|e] r1]; simpl.
    + split; [|done]. eexists _, _. by rewrite <- app_assoc.
    + split; [by eexists|]. eexists. split; [done|].
      by destruct (instanceofError e).
  - destruct (GetUserUseCase.execute r id) as [[u|e] r1]; simpl.
    + split; [|done]. eexists _, _. by rewrite <- app_assoc.
    + split; [by eexists|]. eexists. split; [done|].
      by destruct (instanceofError e).
  - destruct (ListUsersUseCase.execute r _) as [[u|e] r1]; simpl.
    + split; [|done]. eexists _, _. by rewrite <- app_assoc.
    + split; [by eexists|]. eexists. split; [done|].
      by destruct (instanceofError e).
Qed.

End ControllerExtras.

Section ActionExtras.
Context {fmt : EmailFormat} {dates : DateFormat}.

(** X23. At the action boundary, on the in-memory repository: a failed
    [createUserAction] rejects with a plain [Error] (the class of the
    original error is not kept), leaves the repository as it was and
    revalidates nothing; a successful one has added one user and
    revalidated [/users], once. [getUserAction] and [listUsersAction]
    never change the repository and never revalidate. *)
Theorem actions_revalidate_only_after_a_create (a : Actions.App Repo.t)
    input now id options :
  let repoOf (x : Actions.App Repo.t) := fst (Actions.app_world x) in
  match Actions.createUserAction input now a with
  | (Rejected e, a') =>
      (exists message, e = Error message)
      /\ repoOf a' = repoOf a
      /\ Actions.app_revalidated a' = Actions.app_revalidated a
  | (Resolved _, a') =>
      Repo.nextId (repoOf a') = Repo.nextId (repoOf a) + 1
      /\ Actions.app_revalidated a' = Actions.app_revalidated a ++ ["/users"]
  end
  /\ (let a' := snd (Actions.getUserAction id a) in
      repoOf a' = repoOf a
      /\ Actions.app_revalidated a' = Actions.app_revalidated a)
  /\ (let a' := snd (Actions.listUsersAction options a) in
      repoOf a' = repoOf a
      /\ Actions.app_revalidated a' = Actions.app_revalidated a).
Proof.
  destruct a as [[r out] logged revalidated]. simpl. split; [|split].
  - unfold Actions.createUserAction, UserController.createUser,
      BaseController.execute.
    simpl.
    destruct (CreateUserUseCase.execute r _ now) as [[u|e] r1] eqn:Hex; simpl.
    + apply execute_resolved_inv in Hex as (v & _ & _ & [= -> ->]). done.
    + split; [by eexists|]. split; [|done].
      revert Hex. unfold CreateUserUseCase.execute.
      destruct (safeParse createUserInputSchema _) as [v|issues];
        [|by intros [= _ <-]].
      simpl. destruct (Repo.findByEmail r (in_email v)); [|done].
      by intros [= _ <-].
  - unfold Actions.getUserAction, UserController.getUserById,
      BaseController.execute, GetUserUseCase.execute.
    simpl. by destruct (Repo.findById r id).
  - unfold Actions.listUsersAction, UserController.listUsers,
      BaseController.execute, ListUsersUseCase.execute.
    simpl.
    by destruct ((default 10 (options ≫= ListUsersUseCase.limit) <? 1)
                 || (default 10 (options ≫= ListUsersUseCase.limit) >? 100)).
Qed.

End ActionExtras.

(** * Properties of the console logger *)

Section LoggerExtras.
Context {dates : DateFormat}.


(** X25. A log level that passed the environment schema is a number from
    0 to 4, and 2 when the variable is not set; with such a level the
    logger never drops an [error] or a [fatal] message. *)
Theorem environment_log_level_keeps_errors raw lv message e context now :
  ConsoleLoggerService.appLogLevel raw = Some lv ->
  exists n,
    lv = Some n /\ 0 <= n <= 4
    /\ (raw = None -> n = 2)
    /\ ConsoleLoggerService.error n message e context now <> []
    /\ ConsoleLoggerService.fatal n message e context now <> [].
Proof.
  unfold ConsoleLoggerService.appLogLevel.
  destruct (ConsoleLoggerService.isLevelDigit (default "2" raw)) eqn:Hdigit;
    [|done].
  intros [= <-].
  assert (exists n, Js.parseInt (default "2" raw) = Some n /\ 0 <= n <= 4
                    /\ (raw = None -> n = 2)) as (n & -> & Hn & Hdef).
  { destruct raw as [s|]; simpl in *; [|by exists 2].
    destruct s as [|c [|c' s]]; try done.
    destruct c as [[] [] [] [] [] [] [] []]; try done;
      vm_compute; eexists; (split; [reflexivity|]); (split; [|done]);
      split; discriminate. }
  exists n. do 3 (split; [done|]).
  unfold ConsoleLoggerService.error, ConsoleLoggerService.fatal,
    ConsoleLoggerService.log.
  destruct (Z.gtb_spec n 4); [lia|]. done.
Qed.

End LoggerExtras.

(** * The further properties on concrete runs *)

Lemma oneUser_reachable : Repo.reachable oneUser.
Proof. apply run_reachable. Qed.

Lemma threeUsers_reachable : Repo.reachable threeUsers.
Proof. apply run_reachable. Qed.

Lemma oneUser_indexed : indexed oneUser.
Proof.
  exact (guarded_indexed (fmt := Zod.emailRegex) _
           (guarded_step Repo.empty
              (AppCreate (request "test@example.com" "Test User") 0)
              guarded_empty)).
Qed.

Example toISOString_samples :
  Iso.toISOString 0 = "1970-01-01T00:00:00.000Z"
  /\ Iso.toISOString 951782400000 = "2000-02-29T00:00:00.000Z"
  /\ Iso.toISOString 1700000000000 = "2023-11-14T22:13:20.000Z"
  /\ Iso.toISOString (-1) = "1969-12-31T23:59:59.999Z".
Proof. repeat split; vm_compute; reflexivity. Qed.

Lemma create_then_lookup_witness :
  let input := mkCreateUserInput "New@Example.com" "  New  " in
  let created := mkUser 2 "new@example.com" "  New  " 9 9 in
  (Repo.reachable oneUser
   /\ Js.toLowerCase "NEW@example.COM" = Js.toLowerCase (in_email input))
  /\ fst (Repo.create oneUser input 9) = created
  /\ Repo.findById (snd (Repo.create oneUser input 9)) "2" = Some created
  /\ Repo.findByEmail (snd (Repo.create oneUser input 9)) "NEW@example.COM"
     = Some created.
Proof.
  intros input created.
  assert (Js.toLowerCase "NEW@example.COM" = Js.toLowerCase (in_email input))
    as He by reflexivity.
  split; [split; [exact oneUser_reachable|exact He]|].
  split; [reflexivity|].
  destruct (create_then_lookup oneUser input 9 "NEW@example.COM"
              oneUser_reachable He) as (Hid & Hemail & _).
  split; [exact Hid|exact Hemail].
Defined.

Lemma delete_removes_the_user_witness :
  (Js.parseInt "1" = Some 1
   /\ JsMap.get 1 (Repo.users threeUsers)
      = Some (mkUser 1 "user1@example.com" "User 1" 0 0))
  /\ fst (Repo.delete threeUsers "1") = true
  /\ Repo.findById (snd (Repo.delete threeUsers "1")) "1" = None
  /\ Repo.findById (snd (Repo.delete threeUsers "1")) "2"
     = Repo.findById threeUsers "2".
Proof.
  assert (Js.parseInt "1" = Some 1) as H1 by reflexivity.
  assert (JsMap.get 1 (Repo.users threeUsers)
          = Some (mkUser 1 "user1@example.com" "User 1" 0 0)) as H2
    by reflexivity.
  split; [by split|].
  destruct (delete_removes_the_user threeUsers "1" 1 _ H1 H2)
    as (Htrue & Hgone & Hrest & _).
  split; [exact Htrue|]. split; [exact Hgone|].
  apply (Hrest "2" 2); [reflexivity|lia].
Defined.

Lemma findByEmail_finds_exactly_the_owner_witness :
  indexed oneUser
  /\ Repo.findByEmail oneUser "Test@Example.COM" = Some testUser.
Proof.
  split; [exact oneUser_indexed|].
  apply (findByEmail_finds_exactly_the_owner oneUser "Test@Example.COM"
           testUser oneUser_indexed).
  split; [exists 1; vm_compute; left|reflexivity].
Defined.

Lemma delete_frees_the_email_witness :
  exists created r'',
    CreateUserUseCase.execute (fmt := Zod.emailRegex)
      (snd (Repo.delete oneUser "1")) (request "TEST@example.com" "Again") 3
    = (Resolved created, r'')
    /\ email created = "test@example.com"
    /\ name created = "Again".
Proof.
  apply (delete_frees_the_email (fmt := Zod.emailRegex) oneUser "1" 1 testUser
           (request "TEST@example.com" "Again")
           (mkCreateUserInput "TEST@example.com" "Again") 3);
    vm_compute; reflexivity.
Defined.

Lemma update_moves_the_index_entry_witness :
  let input := mkUpdateUserInput (Some "Other@Example.com") None in
  exists updated,
    fst (Repo.update oneUser "1" input 4) = Some updated
    /\ email updated = "other@example.com"
    /\ Repo.findByEmail (snd (Repo.update oneUser "1" input 4))
         "Other@Example.com" = Some updated
    /\ Repo.findByEmail (snd (Repo.update oneUser "1" input 4))
         "test@example.com" = None.
Proof.
  intros input.
  assert ("Other@Example.com" <> "") as H1 by discriminate.
  assert ("Other@Example.com" <> email testUser) as H2 by discriminate.
  assert (Js.toLowerCase "Other@Example.com" <> email testUser) as H3
    by (vm_compute; discriminate).
  destruct (update_moves_the_index_entry oneUser "1" 1 testUser
              "Other@Example.com" None 4 oneUser_reachable
              eq_refl eq_refl H1 H2)
    as (updated & Hupd & Hemail & Hnew & Hold).
  exists updated. split; [exact Hupd|]. split; [exact Hemail|].
  split; [exact Hnew|exact (Hold H3)].
Defined.

Lemma update_with_empty_email_keeps_the_index_witness :
  let input := mkUpdateUserInput (Some "") None in
  (wellFormed oneUser
   /\ Repo.findByEmail oneUser (email testUser) = Some testUser)
  /\ exists updated,
       fst (Repo.update oneUser "1" input 4) = Some updated
       /\ email updated = ""
       /\ Repo.findByEmail (snd (Repo.update oneUser "1" input 4))
            "test@example.com" = Some updated.
Proof.
  intros input.
  pose proof (reachable_wellFormed _ oneUser_reachable) as Hwf.
  assert (Repo.findByEmail oneUser (email testUser) = Some testUser) as Hf
    by reflexivity.
  split; [by split|].
  destruct (update_with_empty_email_keeps_the_index oneUser "1" 1 testUser
              None 4 Hwf eq_refl eq_refl)
    as (updated & Hupd & Hemail & _ & Hstill).
  exists updated. split; [exact Hupd|]. split; [exact Hemail|].
  exact (Hstill Hf).
Defined.

Lemma listing_keeps_insertion_order_witness :
  Repo.reachable threeUsers
  /\ map id (JsMap.values
               (Repo.users
                  (snd (Repo.update threeUsers "1"
                          (mkUpdateUserInput None (Some "First")) 7))))
     = [1; 2; 3]
  /\ map id (JsMap.values (Repo.users (snd (Repo.delete threeUsers "2"))))
     = [1; 3].
Proof.
  split; [exact threeUsers_reachable|].
  destruct (listing_keeps_insertion_order threeUsers threeUsers_reachable)
    as (_ & Hupdate & Hdelete).
  split.
  - rewrite Hupdate. reflexivity.
  - rewrite (Hdelete "2" 2 eq_refl). reflexivity.
Defined.


Lemma id_strings_are_read_leniently_witness :
  (0 < 1 /\ Js.trimStart "  " = "" /\ Js.digitPrefix "abc" = Nil)
  /\ Repo.findById oneUser "  1abc" = Some testUser
  /\ Repo.delete oneUser "  1abc" = Repo.delete oneUser "1"
  /\ Repo.findById oneUser "-1" = None.
Proof.
  assert (0 < 1) as H1 by lia.
  assert (Js.trimStart "  " = "") as H2 by reflexivity.
  assert (Js.digitPrefix "abc" = Nil) as H3 by reflexivity.
  split; [done|].
  destruct (id_strings_are_read_leniently oneUser 1 "  " "abc" H1 H2 H3)
    as (Hfind & _ & Hdelete & Hneg).
  split; [exact Hfind|]. split; [exact Hdelete|].
  apply (Hneg "-1" (-1) oneUser_reachable); [reflexivity|lia].
Defined.

Lemma create_schema_accepts_exactly_witness :
  safeParse (fmt := Zod.emailRegex) createUserInputSchema
    (JsObject [("role", JsString "admin"); ("name", JsString " Ann ");
               ("email", JsString "Ann@Example.com")])
  = ParseSuccess (mkCreateUserInput "Ann@Example.com" "Ann").
Proof.
  apply (create_schema_accepts_exactly (fmt := Zod.emailRegex)).
  exists [("role", JsString "admin"); ("name", JsString " Ann ");
          ("email", JsString "Ann@Example.com")],
    "Ann@Example.com", " Ann ".
  repeat split; vm_compute; (reflexivity || discriminate).
Defined.

Lemma created_users_are_normalized_witness :
  let u := mkUser 2 "ann@example.com" "Ann" 5 5 in
  (exists r',
     CreateUserUseCase.execute (fmt := Zod.emailRegex) oneUser
       (request "Ann@Example.com" " Ann ") 5 = (Resolved u, r'))
  /\ Js.trim (name u) = name u /\ len (name u) <= 100
  /\ Js.toLowerCase (email u) = email u /\ 1 <= len (email u) <= 255.
Proof.
  intros u.
  assert (CreateUserUseCase.execute (fmt := Zod.emailRegex) oneUser
            (request "Ann@Example.com" " Ann ") 5
          = (Resolved u,
             snd (CreateUserUseCase.execute (fmt := Zod.emailRegex) oneUser
                    (request "Ann@Example.com" " Ann ") 5))) as Hex
    by (vm_compute; reflexivity).
  split; [by eexists|].
  destruct (created_users_are_normalized (fmt := Zod.emailRegex)
              oneUser _ 5 u _ Hex) as (H1 & H2 & H3 & H4 & _).
  by repeat split.
Defined.

Lemma update_schema_accepts_exactly_witness :
  safeParseUpdate (fmt := Zod.emailRegex) updateUserInputSchema (JsObject [])
  = UpdateSuccess (mkUpdateUserInput None None)
  /\ safeParseUpdate (fmt := Zod.emailRegex) updateUserInputSchema
       (JsObject [("name", JsString " Ann ")])
     = UpdateSuccess (mkUpdateUserInput None (Some "Ann")).
Proof.
  split.
  - apply (update_schema_accepts_exactly (fmt := Zod.emailRegex)).
    exists []. by repeat split.
  - apply (update_schema_accepts_exactly (fmt := Zod.emailRegex)).
    exists [("name", JsString " Ann ")].
    repeat split; vm_compute; (reflexivity || discriminate).
Defined.

Lemma validated_update_keeps_the_user_findable_witness :
  let input := JsObject [("email", JsString "Renamed@Example.com")] in
  let d := mkUpdateUserInput (Some "Renamed@Example.com") None in
  (Zod.emailRegex "" = false
   /\ safeParseUpdate (fmt := Zod.emailRegex) updateUserInputSchema input
      = UpdateSuccess d)
  /\ exists updated,
       fst (Repo.update oneUser "1" d 6) = Some updated
       /\ Repo.findByEmail (snd (Repo.update oneUser "1" d 6)) (email updated)
          = Some updated.
Proof.
  intros input d.
  assert (Zod.emailRegex "" = false) as H1 by reflexivity.
  assert (safeParseUpdate (fmt := Zod.emailRegex) updateUserInputSchema input
          = UpdateSuccess d) as H2 by (vm_compute; reflexivity).
  split; [by split|].
  exact (validated_update_keeps_the_user_findable (fmt := Zod.emailRegex)
           oneUser "1" 1 testUser input d 6 oneUser_reachable H1
           eq_refl eq_refl eq_refl H2).
Defined.

Lemma execute_changes_the_repository_only_on_success_witness :
  snd (CreateUserUseCase.execute (fmt := Zod.emailRegex) oneUser
         (request "TEST@example.com" "Twice") 5) = oneUser
  /\ map id (JsMap.values
               (Repo.users
                  (snd (CreateUserUseCase.execute (fmt := Zod.emailRegex)
                          oneUser (request "ann@example.com" "Ann") 5))))
     = [1; 2].
Proof.
  split.
  - destruct (execute_changes_the_repository_only_on_success
                (fmt := Zod.emailRegex) oneUser
                (request "TEST@example.com" "Twice") 5) as [Hrej _].
    apply (Hrej (Error "User with this email already exists")).
    vm_compute. reflexivity.
  - destruct (execute_changes_the_repository_only_on_success
                (fmt := Zod.emailRegex) oneUser
                (request "ann@example.com" "Ann") 5) as [_ Hres].
    destruct (Hres oneUser_reachable (mkUser 2 "ann@example.com" "Ann" 5 5)
                (snd (CreateUserUseCase.execute (fmt := Zod.emailRegex)
                        oneUser (request "ann@example.com" "Ann") 5)))
      as [Hvalues _]; [vm_compute; reflexivity|].
    rewrite Hvalues. reflexivity.
Defined.

Lemma repeated_execute_is_rejected_witness :
  let first := CreateUserUseCase.execute (fmt := Zod.emailRegex) Repo.empty
                 (request "test@example.com" "Test User") 0 in
  first = (Resolved testUser, oneUser)
  /\ CreateUserUseCase.execute (fmt := Zod.emailRegex) oneUser
       (request "TEST@EXAMPLE.COM" "Somebody Else") 1
     = (Rejected (Error "User with this email already exists"), oneUser).
Proof.
  intros first.
  assert (first = (Resolved testUser, oneUser)) as H1
    by (vm_compute; reflexivity).
  split; [exact H1|].
  apply (repeated_execute_is_rejected (fmt := Zod.emailRegex) Repo.empty
           (request "test@example.com" "Test User") 0 testUser oneUser
           (request "TEST@EXAMPLE.COM" "Somebody Else")
           (mkCreateUserInput "TEST@EXAMPLE.COM" "Somebody Else") 1
           Repo.reachable_empty H1);
    vm_compute; reflexivity.
Defined.

Lemma get_user_follows_create_and_delete_witness :
  GetUserUseCase.execute oneUser "1" = (Resolved testUser, oneUser)
  /\ fst (GetUserUseCase.execute (snd (Repo.delete oneUser "1")) "1")
     = Rejected (NotFoundError "User with identifier '1' not found").
Proof.
  assert (CreateUserUseCase.execute (fmt := Zod.emailRegex) Repo.empty
            (request "test@example.com" "Test User") 0
          = (Resolved testUser, oneUser)) as H1 by (vm_compute; reflexivity).
  destruct (get_user_follows_create_and_delete (fmt := Zod.emailRegex)
              Repo.empty _ 0 testUser oneUser Repo.reachable_empty H1)
    as (Hget & Hgone & _).
  split; [exact Hget|].
  exact (f_equal fst Hgone).
Defined.

Lemma controller_create_then_get_witness :
  let resp :=
    UserController.mkResponse "1" "test@example.com" "Test User"
      "2023-11-14T22:13:20.000Z" "2023-11-14T22:13:20.000Z" in
  let created :=
    UserController.createUser (fmt := Zod.emailRegex) (dates := Iso.toISOString)
      (UserController.mkRequest "Test@Example.com" " Test User ")
      1700000000000 (Repo.empty, []) [] in
  fst (fst created) = BaseController.Success resp
  /\ exists out',
       UserController.getUserById (dates := Iso.toISOString) "1"
         (snd (fst created)) (snd created)
       = (BaseController.Success resp, (fst (snd (fst created)), out'),
          snd created).
Proof.
  intros resp created.
  assert (created
          = (BaseController.Success resp, snd (fst created), snd created))
    as H1 by (vm_compute; reflexivity).
  split; [by rewrite H1|].
  exact (controller_create_then_get (fmt := Zod.emailRegex)
           (dates := Iso.toISOString) Repo.empty _ _ [] [] resp _ _
           Repo.reachable_empty H1).
Defined.

Lemma controller_error_tags_witness :
  (exists out' entry,
     UserController.createUser (fmt := Zod.emailRegex)
       (dates := Iso.toISOString)
       (UserController.mkRequest "invalid-email" "Test User") 0
       (oneUser, []) []
     = (BaseController.Failure "ValidationError" "Invalid input",
        (oneUser, out'), [entry]))
  /\ (exists out' entry,
        UserController.getUserById (dates := Iso.toISOString) "999"
          (oneUser, []) []
        = (BaseController.Failure "NotFoundError"
             "User with identifier '999' not found",
           (oneUser, out'), [entry]))
  /\ (exists out' entry,
        UserController.listUsers (dates := Iso.toISOString) (Some 0) None
          (oneUser, []) []
        = (BaseController.Failure "ValidationError"
             "Limit must be between 1 and 100",
           (oneUser, out'), [entry])).
Proof.
  destruct (controller_error_tags (fmt := Zod.emailRegex)
              (dates := Iso.toISOString) oneUser [] [])
    as (Hschema & _ & Hmissing & Hlimit).
  split; [|split].
  - eapply (Hschema (UserController.mkRequest "invalid-email" "Test User") 0).
    vm_compute. reflexivity.
  - apply (Hmissing "999"); [vm_compute; reflexivity|discriminate].
  - apply (Hlimit (Some 0) None). simpl. lia.
Defined.



Lemma environment_log_level_keeps_errors_witness :
  ConsoleLoggerService.appLogLevel (Some "3") = Some (Some 3)
  /\ ConsoleLoggerService.appLogLevel None = Some (Some 2)
  /\ ConsoleLoggerService.error (dates := Iso.toISOString) 3 "down" None None 0
     <> [].
Proof.
  assert (ConsoleLoggerService.appLogLevel (Some "3") = Some (Some 3)) as H1
    by reflexivity.
  split; [exact H1|]. split; [reflexivity|].
  destruct (environment_log_level_keeps_errors (dates := Iso.toISOString)
              (Some "3") (Some 3) "down" None None 0 H1)
    as (n & [= <-] & _ & _ & Herror & _).
  exact Herror.
Defined.
